(** * build_macos.json.py: the macOS build-pipeline generator

    A shallow embedding of [.buildkite/pipelines/build_macos.json.py] and
    the properties of the pipeline document it prints.

    The script is a pure assembler: three option values come from the
    command line, a loop over [product(archs, cur_build_types)] appends one
    step dictionary per pair, and [json.dumps(pipeline, indent=2)] is
    printed.  The development follows that structure:

    - [Json]: the values [json.dumps] is given and its text with an indent;
    - [Py]: the little of Python the script relies on (an insertion-ordered
      [dict] with a raising subscript, [itertools.product], a [for] loop
      whose body may raise);
    - [Generator]: the body of [main], over arbitrary tables;
    - the script's own module-level tables and [main];
    - [Cli]: the three [add_argument] declarations read by
      [ArgumentParser.parse_args], and the [__main__] block.

    Python strings are modelled as [string]: a character is a code point
    below 256, which covers every literal of the script and every value the
    parser lets through. *)

From Stdlib Require Import String Ascii List ZArith Bool Arith Lia.
From Stdlib Require Import DecimalString.
Import ListNotations.

Local Open Scope list_scope.
Local Open Scope string_scope.

Set Warnings "-register-all".

(* ================================================================== *)
(** ** Small string helpers *)

Definition nl : string := String "010"%char EmptyString.

(** The double quote, as a character and as a one-character string. *)
Definition dquote : ascii := "034"%char.
Definition q : string := String dquote EmptyString.

Fixpoint join (sep : string) (l : list string) : string :=
  match l with
  | [] => EmptyString
  | [x] => x
  | x :: rest => x ++ sep ++ join sep rest
  end.

(** [s * n] on Python strings. *)
Fixpoint repeat_string (s : string) (n : nat) : string :=
  match n with
  | O => EmptyString
  | S n' => s ++ repeat_string s n'
  end.

(** A line of the printed document: a new line, [n * level] spaces, and
    the text. *)
Definition line (n level : nat) (text : string) : string :=
  nl ++ repeat_string " " (n * level) ++ text.

(** [c in s] for a one-character [c]. *)
Fixpoint contains_char (c : ascii) (s : string) : bool :=
  match s with
  | EmptyString => false
  | String d s' => Ascii.eqb c d || contains_char c s'
  end.

(** [s.split(c, 1)] when [c] occurs in [s]: the text before the first [c]
    and the text after it. *)
Fixpoint split_first (c : ascii) (s : string) : string * string :=
  match s with
  | EmptyString => (EmptyString, EmptyString)
  | String d s' =>
      if Ascii.eqb c d then (EmptyString, s')
      else let (a, b) := split_first c s' in (String d a, b)
  end.

(** [s.split(c)]: every piece between two occurrences of [c]. *)
Fixpoint split_all (c : ascii) (s : string) : list string :=
  match s with
  | EmptyString => [EmptyString]
  | String d s' =>
      if Ascii.eqb c d then EmptyString :: split_all c s'
      else match split_all c s' with
           | [] => [String d EmptyString]
           | p :: ps => String d p :: ps
           end
  end.

(** [x in l] for a list of strings. *)
Definition mem (x : string) (l : list string) : bool :=
  existsb (String.eqb x) l.

(* ================================================================== *)
(** ** JSON values and [json.dumps] *)

Module Json.

(** The Python values [json.dumps] serialises here: [None], [bool],
    [int], [str], [list] and [dict] with string keys.  A [dict] keeps its
    insertion order, which is the order of the printed members. *)
Inductive value : Type :=
| Null
| Bool (b : bool)
| Int (z : Z)
| Str (s : string)
| Arr (items : list value)
| Obj (members : list (string * value)).

Definition hex_digit (n : nat) : ascii :=
  match n with
  | 0 => "0" | 1 => "1" | 2 => "2" | 3 => "3" | 4 => "4"
  | 5 => "5" | 6 => "6" | 7 => "7" | 8 => "8" | 9 => "9"
  | 10 => "a" | 11 => "b" | 12 => "c" | 13 => "d" | 14 => "e"
  | _ => "f"
  end%char.

(** ['\\u{0:04x}'.format(n)] for [n < 256]. *)
Definition u_escape (n : nat) : string :=
  "\u00" ++ String (hex_digit (n / 16)) (String (hex_digit (n mod 16)) EmptyString).

(** One character under [ESCAPE_ASCII]: a backslash, a double quote and
    everything outside [' '..'~'] is replaced, first through [ESCAPE_DCT]
    and otherwise by its [\uXXXX] form. *)
Definition escape_char (c : ascii) : string :=
  let n := nat_of_ascii c in
  if Nat.eqb n 92 then "\\"
  else if Nat.eqb n 34 then String "\"%char q
  else if Nat.eqb n 8 then "\b"
  else if Nat.eqb n 12 then "\f"
  else if Nat.eqb n 10 then "\n"
  else if Nat.eqb n 13 then "\r"
  else if Nat.eqb n 9 then "\t"
  else if (Nat.leb 32 n && Nat.leb n 126)%bool then String c EmptyString
  else u_escape n.

Fixpoint escape (s : string) : string :=
  match s with
  | EmptyString => EmptyString
  | String c s' => escape_char c ++ escape s'
  end.

(** [py_encode_basestring_ascii]. *)
Definition encode_basestring_ascii (s : string) : string :=
  q ++ escape s ++ q.

(** [int.__repr__]. *)
Definition intstr (z : Z) : string := NilZero.string_of_int (Z.to_int z).

Section Encode.
(** The indent unit, [' ' * indent]. *)
Variable indent : string.

Definition newline_indent (level : nat) : string :=
  nl ++ repeat_string indent level.

(** [_iterencode], with the chunks concatenated.  With an indent the
    item separator is [","] followed by the new line and its indent,
    and the key separator is [": "]. *)
Fixpoint iterencode (level : nat) (v : value) : string :=
  match v with
  | Null => "null"
  | Bool true => "true"
  | Bool false => "false"
  | Int z => intstr z
  | Str s => encode_basestring_ascii s
  | Arr [] => "[]"
  | Arr items =>
      "[" ++ newline_indent (S level)
          ++ join ("," ++ newline_indent (S level))
                  (map (iterencode (S level)) items)
          ++ newline_indent level ++ "]"
  | Obj [] => "{}"
  | Obj members =>
      "{" ++ newline_indent (S level)
          ++ join ("," ++ newline_indent (S level))
                  (map (fun '(k, x) => encode_basestring_ascii k ++ ": "
                                      ++ iterencode (S level) x)
                       members)
          ++ newline_indent level ++ "}"
  end.
End Encode.

(** [json.dumps(v, indent=n)]. *)
Definition dumps (n : nat) (v : value) : string :=
  iterencode (repeat_string " " n) 0 v.

(** [v[k]] read back from an object; [None] on anything else. *)
Fixpoint assoc (k : string) (members : list (string * value)) : option value :=
  match members with
  | [] => None
  | (k', v) :: rest => if String.eqb k k' then Some v else assoc k rest
  end.

Definition field (k : string) (v : value) : option value :=
  match v with
  | Obj members => assoc k members
  | _ => None
  end.

Definition keys (v : value) : list string :=
  match v with
  | Obj members => map fst members
  | _ => []
  end.

End Json.

(* ================================================================== *)
(** ** The Python the script relies on *)

Module Py.

(** The one exception the generation code can raise: a subscript on a
    [dict] with a key it does not hold. *)
Inductive exn : Type :=
| KeyError (key : string).

Inductive result (A : Type) : Type :=
| Ok (a : A)
| Raise (e : exn).
Arguments Ok {A} a.
Arguments Raise {A} e.

Definition bind {A B : Type} (m : result A) (k : A -> result B) : result B :=
  match m with
  | Ok a => k a
  | Raise e => Raise e
  end.

(** A [dict] with string keys, in insertion order. *)
Definition dict (V : Type) : Type := list (string * V).

(** [k in d]. *)
Definition has_key {V : Type} (d : dict V) (k : string) : bool :=
  mem k (map fst d).

(** [d[k]]: the value stored under [k], or [KeyError(k)]. *)
Fixpoint getitem {V : Type} (d : dict V) (k : string) : result V :=
  match d with
  | [] => Raise (KeyError k)
  | (k', v) :: rest => if String.eqb k k' then Ok v else getitem rest k
  end.

(** [itertools.product(xs, ys)]: the last iterable cycles fastest. *)
Fixpoint product {A B : Type} (xs : list A) (ys : list B) : list (A * B) :=
  match xs with
  | [] => []
  | x :: xs' => (map (fun y => (x, y)) ys ++ product xs' ys)%list
  end.

(** [for x in xs: body], the body updating the loop's state [s]; an
    exception leaves the loop at once. *)
Fixpoint for_each {A S : Type} (body : S -> A -> result S)
         (xs : list A) (s : S) : result S :=
  match xs with
  | [] => Ok s
  | x :: xs' => bind (body s x) (for_each body xs')
  end.

(** The shape of the loop of [main]: evaluate, then [append]. *)
Definition append_body {A S : Type} (f : A -> result S)
           (acc : list S) (x : A) : result (list S) :=
  bind (f x) (fun s => Ok (acc ++ [ s ])%list).

End Py.

Notation "x <- m ;; k" := (Py.bind m (fun x => k))
  (at level 61, m at next level, right associativity).

Import Py.

(* ================================================================== *)
(** ** The parsed arguments *)

(** The namespace [parse_args] returns: [args.build_type] is [None] or a
    value, [args.action] a value, [args.build_aarch64] a boolean.  [main]
    tests [args.build_type] against [None] and otherwise only interpolates
    the two values in f-strings, so each is kept as the text it formats
    to: a string is itself (see [Cli.str] for the one value that is not a
    string). *)
Record Args : Type := mkArgs {
  build_type : option string;
  action : string;
  build_aarch64 : bool
}.

(* ================================================================== *)
(** ** The body of [main], over arbitrary tables *)

Module Generator.
Section Tables.

Variable archs : list string.
Variable build_types : list string.
Variable agents : dict Json.value.
Variable envs : dict Json.value.

(** [cur_build_types], lines 54 to 56. *)
Definition cur_build_types (args : Args) : list string :=
  match build_type args with
  | Some bt => [bt]
  | None => build_types
  end.

(** The first entry of ["commands"], line 64. *)
Definition debug_export (act : string) : string :=
  "if [[ " ++ q ++ act ++ q ++ " == " ++ q ++ "debug" ++ q
           ++ " ]]; then export ML_DEBUG=1; fi".

Definition label_of (arch bt : string) : string :=
  "Build & test :cpp: for MacOS-" ++ arch ++ "-" ++ bt ++ " :macos:".

Definition key_of (arch bt : string) : string :=
  "build_test_macos-" ++ arch ++ "-" ++ bt.

Definition context_of (arch bt : string) : string :=
  "Build and test on MacOS " ++ arch ++ " " ++ bt.

(** The dictionary display of lines 59 to 84, once both subscripts have
    been evaluated. *)
Definition step_record (args : Args) (arch bt : string)
           (agent env : Json.value) : Json.value :=
  Json.Obj
    [ ("label", Json.Str (label_of arch bt));
      ("timeout_in_minutes", Json.Str "300");
      ("agents", agent);
      ("commands",
        Json.Arr [ Json.Str (debug_export (action args));
                   Json.Str ".buildkite/scripts/steps/build_and_test.sh" ]);
      ("depends_on", Json.Str "check_style");
      ("key", Json.Str (key_of arch bt));
      ("env", env);
      ("artifact_paths",
        Json.Str "*/**/unittest/boost_test_results.junit;*/**/unittest/ml_test_*");
      ("plugins",
        Json.Obj
          [ ("test-collector#v1.2.0",
              Json.Obj
                [ ("files", Json.Str "*/*/unittest/boost_test_results.junit");
                  ("format", Json.Str "junit") ]) ]);
      ("notify",
        Json.Arr
          [ Json.Obj
              [ ("github_commit_status",
                  Json.Obj [ ("context", Json.Str (context_of arch bt)) ]) ] ])
    ].

(** The display is evaluated entry by entry: [agents[arch]] before
    [envs[arch]], either of which may raise. *)
Definition step (args : Args) (arch bt : string) : result Json.value :=
  agent <- getitem agents arch ;;
  env <- getitem envs arch ;;
  Ok (step_record args arch bt agent env).

(** The loop of lines 58 to 84: [pipeline_steps.append({...})] for each
    pair of the product. *)
Definition pipeline_steps (args : Args) : result (list Json.value) :=
  for_each
    (append_body (fun '(arch, bt) => step args arch bt))
    (product archs (cur_build_types args))
    [].

(** [pipeline], lines 86 to 88. *)
Definition pipeline (steps : list Json.value) : Json.value :=
  Json.Obj [ ("steps", Json.Arr steps) ].

(** [main(args)]: the text written to standard output when [main]
    returns.  [print] writes its argument and a new line; it is the last
    statement, so a run that raises has written nothing. *)
Definition main (args : Args) : result string :=
  steps <- pipeline_steps args ;;
  Ok (Json.dumps 2 (pipeline steps) ++ nl).

End Tables.
End Generator.

(* ================================================================== *)
(** ** The script's tables, lines 23 to 50 *)

Definition archs : list string := [ "aarch64" ].

Definition build_types : list string := [ "RelWithDebInfo" ].

Definition actions : list string := [ "build"; "debug" ].

Definition agents : dict Json.value :=
  [ ("aarch64",
      Json.Obj [ ("provider", Json.Str "orka");
                 ("image", Json.Str "ml-macos-13-arm-004.orkasi") ]) ].

Definition envs : dict Json.value :=
  [ ("aarch64",
      Json.Obj
        [ ("TMPDIR", Json.Str "/tmp");
          ("HOMEBREW_PREFIX", Json.Str "/opt/homebrew");
          ("PATH", Json.Str "/opt/homebrew/bin:$PATH");
          ("ML_DEBUG", Json.Str "0");
          ("CPP_CROSS_COMPILE", Json.Str EmptyString);
          ("CMAKE_FLAGS",
            Json.Str "-DCMAKE_TOOLCHAIN_FILE=cmake/darwin-aarch64.cmake");
          ("RUN_TESTS", Json.Str "true");
          ("BOOST_TEST_OUTPUT_FORMAT_FLAGS",
            Json.Str "--logger=JUNIT,error,boost_test_results.junit") ]) ].

Definition cur_build_types : Args -> list string :=
  Generator.cur_build_types build_types.

Definition pipeline_steps : Args -> result (list Json.value) :=
  Generator.pipeline_steps archs build_types agents envs.

Definition main : Args -> result string :=
  Generator.main archs build_types agents envs.

(* ================================================================== *)
(** ** The command line, lines 94 to 113 *)

(** [ArgumentParser.parse_args] for the parser the script declares.  The
    library is not part of the repository; what is embedded is the
    processing of the command line by the [argparse] of CPython 3.11,
    specialised to this parser: the [-h]/[--help] option every parser has
    and the three options of lines 95 to 109, none of them positional.  An
    argument string is first classified ([_parse_optional]) and the
    options are then consumed from left to right ([consume_optional]),
    each argument string going through [_get_values] before its value is
    stored. *)
Module Cli.

Inductive opt : Type :=
| OptHelp
| OptBuildType
| OptAction
| OptBuildAarch64.

(** [parser._option_string_actions], in registration order. *)
Definition option_string_actions : list (string * opt) :=
  [ ("-h", OptHelp);
    ("--help", OptHelp);
    ("--build-type", OptBuildType);
    ("--action", OptAction);
    ("--build-aarch64", OptBuildAarch64) ].

(** [nargs]: the two [store] options take one argument string, [help]
    and [store_true] take none. *)
Definition takes_value (o : opt) : bool :=
  match o with
  | OptBuildType | OptAction => true
  | OptHelp | OptBuildAarch64 => false
  end.

(** [choices=build_types] and [choices=actions]. *)
Definition choices (o : opt) : option (list string) :=
  match o with
  | OptBuildType => Some build_types
  | OptAction => Some actions
  | OptHelp | OptBuildAarch64 => None
  end.

(** What [parser.error] is called with; it prints the usage and the
    message to standard error and exits with status 2. *)
Inductive arg_error : Type :=
| ambiguous_option (arg : string) (matches : list string)
| expected_one_argument (o : opt)
| ignored_explicit_argument (o : opt) (explicit_arg : string)
| invalid_choice (o : opt) (value : string)
| unrecognized_arguments (extras : list string).

Inductive attempt (A : Type) : Type :=
| Got (a : A)
| Error (e : arg_error).
Arguments Got {A} a.
Arguments Error {A} e.

(** The pattern letter of an argument string: ['A'] for an argument,
    ['-'] for the [--] separator, ['O'] for an option together with its
    option tuple [(action, option_string, explicit_arg)]; the action is
    [None] for a string that looks like an option the parser lacks. *)
Inductive arg_class : Type :=
| A
| DashDash
| O (act : option opt) (option_string : string) (explicit_arg : option string).

Fixpoint lookup_option (table : list (string * opt)) (s : string) : option opt :=
  match table with
  | [] => None
  | (o, act) :: rest => if String.eqb s o then Some act else lookup_option rest s
  end.

Definition second_is_dash (s : string) : bool :=
  match s with
  | String _ (String c _) => Ascii.eqb c "-"
  | _ => false
  end.

(** [_get_option_tuples], for a string of two characters or more that
    starts with [-].  A long option may be abbreviated to a prefix, cut at
    its [=]; a short one may carry its argument glued on. *)
Definition get_option_tuples (s : string) : list (opt * string * option string) :=
  if second_is_dash s then
    let '(option_prefix, explicit_arg) :=
      if contains_char "=" s
      then (let (a, b) := split_first "=" s in (a, Some b))
      else (s, None) in
    flat_map (fun '(o, act) =>
                if String.prefix option_prefix o
                then [ (act, o, explicit_arg) ] else [])
             option_string_actions
  else
    let short_option_prefix := substring 0 2 s in
    let short_explicit_arg := substring 2 (String.length s - 2) s in
    flat_map (fun '(o, act) =>
                if String.eqb o short_option_prefix
                then [ (act, o, Some short_explicit_arg) ]
                else if String.prefix s o
                then [ (act, o, None) ] else [])
             option_string_actions.

Definition is_digit (c : ascii) : bool :=
  (Nat.leb 48 (nat_of_ascii c) && Nat.leb (nat_of_ascii c) 57)%bool.

Fixpoint all_digits (s : string) : bool :=
  match s with
  | EmptyString => true
  | String c s' => is_digit c && all_digits s'
  end.

Definition digits1 (s : string) : bool :=
  negb (String.eqb s EmptyString) && all_digits s.

(** [$] also matches before a new line that ends the string. *)
Fixpoint chomp (s : string) : string :=
  match s with
  | EmptyString => EmptyString
  | String c EmptyString => if Ascii.eqb c "010" then EmptyString else s
  | String c s' => String c (chomp s')
  end.

(** [_negative_number_matcher], ['^-\d+$|^-\d*\.\d+$']. *)
Definition negative_number (s : string) : bool :=
  match s with
  | String c r =>
      Ascii.eqb c "-" &&
      (let r := chomp r in
       digits1 r ||
       (contains_char "." r &&
        (let (a, b) := split_first "." r in all_digits a && digits1 b)))
  | EmptyString => false
  end.

(** [_parse_optional]. *)
Definition parse_optional (s : string) : attempt arg_class :=
  match s with
  | EmptyString => Got A
  | String c _ =>
      if negb (Ascii.eqb c "-") then Got A
      else
        match lookup_option option_string_actions s with
        | Some act => Got (O (Some act) s None)
        | None =>
            if Nat.eqb (String.length s) 1 then Got A
            else
              let before_eq :=
                if contains_char "=" s
                then (let (o, e) := split_first "=" s in
                      match lookup_option option_string_actions o with
                      | Some act => Some (O (Some act) o (Some e))
                      | None => None
                      end)
                else None in
              match before_eq with
              | Some cls => Got cls
              | None =>
                  match get_option_tuples s with
                  | [ (act, o, e) ] => Got (O (Some act) o e)
                  | (_ :: _ :: _) as tuples =>
                      Error (ambiguous_option s (map (fun t => snd (fst t)) tuples))
                  | [] =>
                      if negative_number s then Got A
                      else if contains_char " " s then Got A
                      else Got (O None s None)
                  end
              end
        end
  end.

(** The first loop of [_parse_known_args]: every string is classified
    before anything is consumed, and all that follows a [--] is an
    argument. *)
Fixpoint classify (argv : list string) : attempt (list (string * arg_class)) :=
  match argv with
  | [] => Got []
  | s :: rest =>
      if String.eqb s "--"
      then Got ((s, DashDash) :: map (fun t => (t, A)) rest)
      else
        match parse_optional s with
        | Error e => Error e
        | Got cls =>
            match classify rest with
            | Error e => Error e
            | Got l => Got ((s, cls) :: l)
            end
        end
  end.

(** How parsing ends: a namespace, the help text printed by the [help]
    action (which exits with status 0), or [parser.error]. *)
Inductive parse_result : Type :=
| Parsed (args : Args)
| HelpExit
| Failed (e : arg_error).

(** [_check_value]. *)
Definition check_value (o : opt) (value : string) : bool :=
  match choices o with
  | Some l => mem value l
  | None => true
  end.

(** The [store] action. *)
Definition store (o : opt) (value : string) (ns : Args) : Args :=
  match o with
  | OptBuildType => mkArgs (Some value) (action ns) (build_aarch64 ns)
  | OptAction => mkArgs (build_type ns) value (build_aarch64 ns)
  | OptHelp | OptBuildAarch64 => ns
  end.

(** What [_get_values] returns for an option with one argument string:
    that string, or the empty list. *)
Inductive stored : Type :=
| Text (s : string)
| EmptyList.

(** [_get_values] for [nargs=None].  An argument string equal to [--] is
    removed first ([arg_strings.remove('--')]); when one string is left it
    is the value and [_check_value] is called on it; when none is left the
    value is the empty list, which is not checked.  Only an explicit
    argument can be [--] here ([--action=--]): the [--] that stands alone
    on the command line is the separator, never an option's argument. *)
Definition get_values (o : opt) (arg_string : string) : attempt stored :=
  if String.eqb arg_string "--" then Got EmptyList
  else if check_value o arg_string then Got (Text arg_string)
  else Error (invalid_choice o arg_string).

(** [str(value)], what an f-string makes of the stored value. *)
Definition str (v : stored) : string :=
  match v with
  | Text s => s
  | EmptyList => "[]"
  end.

(** [take_action] for an option with its one argument string:
    [_get_values], then the [store] action. *)
Definition take_value (o : opt) (arg_string : string) (ns : Args) : parse_result :=
  match get_values o arg_string with
  | Got v => Parsed (store o (str v) ns)
  | Error e => Failed e
  end.

(** [take_action] for an option without argument: [help] prints and
    exits, [store_true] stores [True]. *)
Definition take_flag (o : opt) (ns : Args) : parse_result :=
  match o with
  | OptHelp => HelpExit
  | OptBuildAarch64 => Parsed (mkArgs (build_type ns) (action ns) true)
  | OptBuildType | OptAction => Parsed ns
  end.

Fixpoint take_flags (os : list opt) (ns : Args) : parse_result :=
  match os with
  | [] => Parsed ns
  | o :: os' =>
      match take_flag o ns with
      | Parsed ns' => take_flags os' ns'
      | r => r
      end
  end.

(** Several single-dash options in one string ([-xyz] for [-x -y -z]):
    the tail of the string is read as further one-letter options.  The
    only one-letter option string of this parser is [-h], which takes no
    argument, so no option of a cluster ever consumes a value. *)
Fixpoint cluster (act : opt) (explicit_arg : string) : attempt (list opt) :=
  match explicit_arg with
  | EmptyString => Got [ act ]
  | String c rest =>
      match lookup_option option_string_actions (String "-" (String c EmptyString)) with
      | Some act' =>
          match cluster act' rest with
          | Got l => Got (act :: l)
          | Error e => Error e
          end
      | None => Error (ignored_explicit_argument act explicit_arg)
      end
  end.

(** The consuming loop.  The parser has no positional argument, so a
    string that is not an option's own argument goes to [extras], which
    [parse_args] rejects once the loop is over. *)
Fixpoint consume (toks : list (string * arg_class)) (ns : Args)
         (extras : list string) : parse_result :=
  match toks with
  | [] =>
      match extras with
      | [] => Parsed ns
      | _ :: _ => Failed (unrecognized_arguments extras)
      end
  | (s, A) :: rest => consume rest ns (extras ++ [ s ])%list
  | (s, DashDash) :: rest => consume rest ns (extras ++ [ s ])%list
  | (s, O None _ _) :: rest => consume rest ns (extras ++ [ s ])%list
  | (_, O (Some act) o (Some e)) :: rest =>
      if takes_value act then
        match take_value act e ns with
        | Parsed ns' => consume rest ns' extras
        | r => r
        end
      else if negb (second_is_dash o) && negb (String.eqb e EmptyString) then
        match cluster act e with
        | Got os =>
            match take_flags os ns with
            | Parsed ns' => consume rest ns' extras
            | r => r
            end
        | Error err => Failed err
        end
      else Failed (ignored_explicit_argument act e)
  | (_, O (Some act) o None) :: rest =>
      if takes_value act then
        match rest with
        | (v, A) :: rest' =>
            match take_value act v ns with
            | Parsed ns' => consume rest' ns' extras
            | r => r
            end
        | _ => Failed (expected_one_argument act)
        end
      else
        match take_flag act ns with
        | Parsed ns' => consume rest ns' extras
        | r => r
        end
  end.

(** The namespace before parsing: the three [default=] values. *)
Definition defaults : Args := mkArgs None "build" false.

Definition parse_args (argv : list string) : parse_result :=
  match classify argv with
  | Error e => Failed e
  | Got toks => consume toks defaults []
  end.

End Cli.

(** How a run of the script ends. *)
Inductive outcome : Type :=
| Printed (stdout : string)       (* [main] returned; exit status 0 *)
| HelpShown                       (* the help text on standard output; exit status 0 *)
| UsageError (e : Cli.arg_error)  (* usage and message on standard error; exit status 2 *)
| Traceback (e : exn).            (* uncaught exception; exit status 1 *)

(** The [__main__] block: [main] is called on what [parse_args] returns,
    and only when it returns. *)
Definition script (argv : list string) : outcome :=
  match Cli.parse_args argv with
  | Cli.Parsed args =>
      match main args with
      | Ok out => Printed out
      | Raise e => Traceback e
      end
  | Cli.HelpExit => HelpShown
  | Cli.Failed e => UsageError e
  end.



(* ================================================================== *)
(** ** Vocabulary of the properties *)

(** The inputs the parser lets through: an action among [actions], no
    build type or one among [build_types]. *)
Definition valid_args (a : Args) : bool :=
  mem (action a) actions &&
  match build_type a with
  | None => true
  | Some bt => mem bt build_types
  end.

(** The namespaces the parser can return: besides a valid choice, each
    of the two values can be the empty list stored for an explicit [--],
    which formats to [[]]. *)
Definition storable (o : Cli.opt) (v : string) : bool :=
  Cli.check_value o v || String.eqb v (Cli.str Cli.EmptyList).

Definition parsable_args (a : Args) : bool :=
  storable Cli.OptAction (action a) &&
  match build_type a with
  | None => true
  | Some bt => storable Cli.OptBuildType bt
  end.

Definition is_str (v : Json.value) : Prop :=
  exists s, v = Json.Str s.

(** The field set and nesting of one step object. *)
Definition step_shaped (v : Json.value) : Prop :=
  exists label provider image cmd1 cmd2 depends key env paths files format context,
    Forall (fun kv => is_str (snd kv)) env /\
    v = Json.Obj
          [ ("label", Json.Str label);
            ("timeout_in_minutes", Json.Str "300");
            ("agents", Json.Obj [ ("provider", Json.Str provider);
                                  ("image", Json.Str image) ]);
            ("commands", Json.Arr [ Json.Str cmd1; Json.Str cmd2 ]);
            ("depends_on", Json.Str depends);
            ("key", Json.Str key);
            ("env", Json.Obj env);
            ("artifact_paths", Json.Str paths);
            ("plugins",
              Json.Obj [ ("test-collector#v1.2.0",
                           Json.Obj [ ("files", Json.Str files);
                                      ("format", Json.Str format) ]) ]);
            ("notify",
              Json.Arr [ Json.Obj [ ("github_commit_status",
                                      Json.Obj [ ("context", Json.Str context) ]) ] ]) ].

(** The document as it is expected on standard output for a valid
    action, written out line by line: the one step, for [aarch64] and
    [RelWithDebInfo], with every member on a line of its own, two spaces
    deeper per level, and the double quotes inside the first command
    escaped with a backslash. *)
Definition expected_lines (act : string) : list string :=
  let name (k : string) := q ++ k ++ q ++ ": " in
  let text (v : string) := q ++ v ++ q in
  let bq := "\" ++ q in
  [ "{";
    "  " ++ name "steps" ++ "[";
    "    {";
    "      " ++ name "label"
             ++ text "Build & test :cpp: for MacOS-aarch64-RelWithDebInfo :macos:" ++ ",";
    "      " ++ name "timeout_in_minutes" ++ text "300" ++ ",";
    "      " ++ name "agents" ++ "{";
    "        " ++ name "provider" ++ text "orka" ++ ",";
    "        " ++ name "image" ++ text "ml-macos-13-arm-004.orkasi";
    "      },";
    "      " ++ name "commands" ++ "[";
    "        " ++ text ("if [[ " ++ bq ++ act ++ bq ++ " == " ++ bq ++ "debug" ++ bq
                          ++ " ]]; then export ML_DEBUG=1; fi") ++ ",";
    "        " ++ text ".buildkite/scripts/steps/build_and_test.sh";
    "      ],";
    "      " ++ name "depends_on" ++ text "check_style" ++ ",";
    "      " ++ name "key" ++ text "build_test_macos-aarch64-RelWithDebInfo" ++ ",";
    "      " ++ name "env" ++ "{";
    "        " ++ name "TMPDIR" ++ text "/tmp" ++ ",";
    "        " ++ name "HOMEBREW_PREFIX" ++ text "/opt/homebrew" ++ ",";
    "        " ++ name "PATH" ++ text "/opt/homebrew/bin:$PATH" ++ ",";
    "        " ++ name "ML_DEBUG" ++ text "0" ++ ",";
    "        " ++ name "CPP_CROSS_COMPILE" ++ text EmptyString ++ ",";
    "        " ++ name "CMAKE_FLAGS"
               ++ text "-DCMAKE_TOOLCHAIN_FILE=cmake/darwin-aarch64.cmake" ++ ",";
    "        " ++ name "RUN_TESTS" ++ text "true" ++ ",";
    "        " ++ name "BOOST_TEST_OUTPUT_FORMAT_FLAGS"
               ++ text "--logger=JUNIT,error,boost_test_results.junit";
    "      },";
    "      " ++ name "artifact_paths"
             ++ text "*/**/unittest/boost_test_results.junit;*/**/unittest/ml_test_*" ++ ",";
    "      " ++ name "plugins" ++ "{";
    "        " ++ name "test-collector#v1.2.0" ++ "{";
    "          " ++ name "files" ++ text "*/*/unittest/boost_test_results.junit" ++ ",";
    "          " ++ name "format" ++ text "junit";
    "        }";
    "      },";
    "      " ++ name "notify" ++ "[";
    "        {";
    "          " ++ name "github_commit_status" ++ "{";
    "            " ++ name "context"
                   ++ text "Build and test on MacOS aarch64 RelWithDebInfo";
    "          }";
    "        }";
    "      ]";
    "    }";
    "  ]";
    "}" ].

(** The lines, each ended by a new line: the last one by [print]. *)
Definition expected_document (act : string) : string :=
  join nl (expected_lines act) ++ nl.

(** Whether an argument string, read as an option, is a request for the
    help text: [-h], [--help], an abbreviation of it, or a cluster of
    [-h]. *)
Definition asks_help (s : string) : bool :=
  match Cli.parse_optional s with
  | Cli.Got (Cli.O (Some Cli.OptHelp) _ _) => true
  | _ => false
  end.

(** The classes that never lead to the help text being printed. *)
Definition calm (cls : Cli.arg_class) : bool :=
  match cls with
  | Cli.O (Some Cli.OptHelp) _ _ => false
  | Cli.O (Some Cli.OptBuildAarch64) o (Some _) => Cli.second_is_dash o
  | _ => true
  end.

(** Two namespaces that select the same steps: [main] reads
    [args.build_type] and [args.action] only. *)
Definition same_selection (a b : Args) : Prop :=
  build_type a = build_type b /\ action a = action b.

(** Two parses end alike: alike errors, or namespaces related by [R]. *)
Definition alike (R : Args -> Args -> Prop) (r1 r2 : Cli.parse_result) : Prop :=
  match r1, r2 with
  | Cli.Parsed a, Cli.Parsed b => R a b
  | Cli.HelpExit, Cli.HelpExit => True
  | Cli.Failed e1, Cli.Failed e2 => e1 = e2
  | _, _ => False
  end.

(** A parse that returns no namespace, and that prints the help text only
    if one of the classified strings [toks] is not [calm]. *)
Definition refused (toks : list (string * Cli.arg_class)) (r : Cli.parse_result) : Prop :=
  match r with
  | Cli.Parsed _ => False
  | Cli.HelpExit => existsb (fun t => negb (calm (snd t))) toks = true
  | Cli.Failed _ => True
  end.

(** What the shell that runs a step makes of its first command.  Inside
    double quotes the shell still expands [$] forms and backquotes and
    reads a backslash as an escape; an operand free of the three is a
    literal, and inside [[ ]] the [==] of a literal against a quoted
    literal is string equality.  [conditional_export] reads the two
    operands back from the command text and tells whether the [export]
    runs; it gives no answer ([None]) for a command of another form or for
    an operand that is not a literal, where the outcome depends on what
    the shell expands it to. *)
Module Shell.

Definition literal (s : string) : bool :=
  negb (contains_char "$" s) && negb (contains_char "`" s)
  && negb (contains_char "\" s).

Definition strip_prefix (p s : string) : option string :=
  if String.prefix p s
  then Some (substring (String.length p) (String.length s - String.length p) s)
  else None.

Definition quoted (s : string) : option (string * string) :=
  match strip_prefix q s with
  | Some r =>
      if contains_char dquote r
      then (let (word, rest) := split_first dquote r in
            if literal word then Some (word, rest) else None)
      else None
  | None => None
  end.

Definition conditional_export (cmd : string) : option bool :=
  match strip_prefix "if [[ " cmd with
  | None => None
  | Some r1 =>
      match quoted r1 with
      | None => None
      | Some (lhs, r2) =>
          match strip_prefix " == " r2 with
          | None => None
          | Some r3 =>
              match quoted r3 with
              | None => None
              | Some (rhs, r4) =>
                  if String.eqb r4 " ]]; then export ML_DEBUG=1; fi"
                  then Some (String.eqb lhs rhs)
                  else None
              end
          end
      end
  end.

End Shell.

(** An architecture name that cannot be confused with the separator of a
    step key. *)
Definition no_dash (s : string) : bool :=
  negb (contains_char "-" s).

(** The characters of an ASCII text file: the new line and the
    printable characters, space to tilde. *)
Definition printable_char (c : ascii) : bool :=
  let n := nat_of_ascii c in
  Nat.eqb n 10 || (Nat.leb 32 n && Nat.leb n 126).

Fixpoint printable (s : string) : bool :=
  match s with
  | EmptyString => true
  | String c s' => printable_char c && printable s'
  end.

(** An architecture that both tables have an entry for. *)
Definition covered (agents envs : dict Json.value) (arch : string) : bool :=
  has_key agents arch && has_key envs arch.

(** An argument string that cannot be read as an option: it is empty or
    does not start with the prefix character. *)
Definition plain_word (s : string) : bool :=
  match s with
  | EmptyString => true
  | String c _ => negb (Ascii.eqb c "-")
  end.

(* ================================================================== *)
(** ** Facts about the serialiser *)

Module JsonFacts.

Lemma append_assoc (a b c : string) : (a ++ b) ++ c = a ++ (b ++ c).
Proof. induction a as [| x a IH]; simpl; [reflexivity | now rewrite IH]. Qed.

Lemma repeat_string_add (s : string) (a b : nat) :
  repeat_string s (a + b) = repeat_string s a ++ repeat_string s b.
Proof.
  induction a as [| a IH]; simpl; [reflexivity |].
  now rewrite IH, append_assoc.
Qed.

(** [level] copies of an indent of [n] spaces are [n * level] spaces. *)
Lemma repeat_spaces (n level : nat) :
  repeat_string (repeat_string " " n) level = repeat_string " " (n * level).
Proof.
  induction level as [| level IH]; simpl.
  - now rewrite Nat.mul_0_r.
  - rewrite IH, <- repeat_string_add. f_equal. lia.
Qed.

(** A separator that ends with the text leading the first item leads
    every item. *)
Lemma join_leading (sep lead : string) (l : list string) :
  l <> [] ->
  lead ++ join (sep ++ lead) l = join sep (map (append lead) l).
Proof.
  induction l as [| x l IH]; intros Hne; [congruence |].
  destruct l as [| y l]; [reflexivity |].
  change (join (sep ++ lead) (x :: y :: l))
    with (x ++ (sep ++ lead) ++ join (sep ++ lead) (y :: l)).
  change (join sep (map (append lead) (x :: y :: l)))
    with ((lead ++ x) ++ sep ++ join sep (map (append lead) (y :: l))).
  rewrite <- IH by discriminate.
  now rewrite !append_assoc.
Qed.

Lemma newline_indent_line (n level : nat) (text : string) :
  Json.newline_indent (repeat_string " " n) level ++ text = line n level text.
Proof.
  unfold Json.newline_indent, line. now rewrite repeat_spaces, append_assoc.
Qed.

(** Every member of an object nested [level] deep is on a line of its
    own, [n] spaces deeper than the braces of the object. *)
Lemma object_layout (n level : nat) (members : list (string * Json.value)) :
  members <> [] ->
  Json.iterencode (repeat_string " " n) level (Json.Obj members) =
  "{" ++ join ","
           (map (fun kv =>
                   line n (S level)
                        (Json.encode_basestring_ascii (fst kv) ++ ": "
                         ++ Json.iterencode (repeat_string " " n) (S level) (snd kv)))
                members)
      ++ line n level "}".
Proof.
  intros Hne. destruct members as [| m members]; [congruence |].
  cbn [Json.iterencode]. f_equal.
  rewrite <- append_assoc. f_equal; [| apply newline_indent_line].
  rewrite join_leading by discriminate.
  rewrite map_map. f_equal. apply map_ext. intros [k x].
  apply newline_indent_line.
Qed.

(** The same for the items of an array. *)
Lemma array_layout (n level : nat) (items : list Json.value) :
  items <> [] ->
  Json.iterencode (repeat_string " " n) level (Json.Arr items) =
  "[" ++ join ","
           (map (fun x =>
                   line n (S level)
                        (Json.iterencode (repeat_string " " n) (S level) x))
                items)
      ++ line n level "]".
Proof.
  intros Hne. destruct items as [| x items]; [congruence |].
  cbn [Json.iterencode]. f_equal.
  rewrite <- append_assoc. f_equal; [| apply newline_indent_line].
  rewrite join_leading by discriminate.
  rewrite map_map. f_equal. apply map_ext. intros y.
  apply newline_indent_line.
Qed.

End JsonFacts.

(* ================================================================== *)
(** ** Facts about the Python fragment *)

Module PyFacts.

Lemma getitem_has_key {V : Type} (d : dict V) (k : string) :
  has_key d k = true -> exists v, getitem d k = Ok v.
Proof.
  unfold has_key, mem.
  induction d as [| [k' v] d IH]; simpl; [discriminate |].
  destruct (String.eqb k k'); simpl; eauto.
Qed.

Lemma getitem_no_key {V : Type} (d : dict V) (k : string) :
  has_key d k = false -> getitem d k = Raise (KeyError k).
Proof.
  unfold has_key, mem.
  induction d as [| [k' v] d IH]; simpl; [reflexivity |].
  destruct (String.eqb k k'); simpl; [discriminate | assumption].
Qed.

Lemma product_length {A B : Type} (xs : list A) (ys : list B) :
  length (product xs ys) = length xs * length ys.
Proof.
  induction xs as [| x xs IH]; simpl; [reflexivity |].
  now rewrite length_app, length_map, IH.
Qed.

(** The pair at row [i] and column [j] sits at index [i * |ys| + j]:
    the first iterable is the major one, and both keep their order. *)
Lemma product_nth_error {A B : Type} (xs : list A) (ys : list B) :
  forall i j x y,
    nth_error xs i = Some x ->
    nth_error ys j = Some y ->
    nth_error (product xs ys) (i * length ys + j) = Some (x, y).
Proof.
  induction xs as [| x0 xs IH]; intros i j x y Hx Hy.
  - destruct i; discriminate.
  - assert (Hj : j < length ys) by (apply nth_error_Some; congruence).
    destruct i as [| i]; simpl in *.
    + injection Hx as ->.
      rewrite nth_error_app1 by (rewrite length_map; lia).
      rewrite nth_error_map, Hy. reflexivity.
    + rewrite nth_error_app2 by (rewrite length_map; lia).
      rewrite length_map.
      replace (length ys + i * length ys + j - length ys)
        with (i * length ys + j) by lia.
      now apply IH.
Qed.

Lemma product_In {A B : Type} (xs : list A) (ys : list B) (x : A) (y : B) :
  In (x, y) (product xs ys) -> In x xs /\ In y ys.
Proof.
  induction xs as [| x0 xs IH]; simpl; [contradiction |].
  rewrite in_app_iff, in_map_iff.
  intros [(y0 & Heq & Hy0) | H].
  - injection Heq as -> ->. auto.
  - destruct (IH H). auto.
Qed.

Section Appending.
Context {A S : Type}.
Variable f : A -> result S.

(** When no iteration raises, the loop has appended one value per
    element, in the order of the iteration. *)
Lemma for_each_append (xs : list A) :
  forall acc,
    (forall x, In x xs -> exists s, f x = Ok s) ->
    exists out,
      for_each (append_body f) xs acc = Ok (acc ++ out)%list /\
      Forall2 (fun x s => f x = Ok s) xs out.
Proof.
  induction xs as [| x xs IH]; intros acc Hok; simpl.
  - exists []. rewrite app_nil_r. split; constructor.
  - destruct (Hok x (or_introl eq_refl)) as [s Hs].
    destruct (IH (acc ++ [ s ])%list) as (out & Hrun & Hall).
    { intros y Hy. apply Hok. now right. }
    exists (s :: out). unfold append_body at 1. rewrite Hs. simpl.
    rewrite Hrun, <- app_assoc. split; [reflexivity | now constructor].
Qed.

(** The first iteration that raises ends the loop with its
    exception. *)
Lemma for_each_raise (pre post : list A) (x : A) (e : exn) :
  forall acc,
    (forall y, In y pre -> exists s, f y = Ok s) ->
    f x = Raise e ->
    for_each (append_body f) (pre ++ x :: post) acc = Raise e.
Proof.
  induction pre as [| y pre IH]; intros acc Hok Hx; simpl.
  - unfold append_body. now rewrite Hx.
  - destruct (Hok y (or_introl eq_refl)) as [s Hs].
    unfold append_body at 1. rewrite Hs. simpl.
    apply IH; [| assumption]. intros z Hz. apply Hok. now right.
Qed.
End Appending.

Lemma Forall2_nth_error_l {A B : Type} (R : A -> B -> Prop) (xs : list A) (ys : list B) :
  Forall2 R xs ys ->
  forall n x, nth_error xs n = Some x ->
              exists y, nth_error ys n = Some y /\ R x y.
Proof.
  induction 1 as [| x0 y0 xs ys HR _ IH]; intros n x Hn.
  - destruct n; discriminate.
  - destruct n as [| n]; simpl in *.
    + injection Hn as <-. eauto.
    + eauto.
Qed.

Lemma Forall2_length_eq {A B : Type} (R : A -> B -> Prop) (xs : list A) (ys : list B) :
  Forall2 R xs ys -> length ys = length xs.
Proof. induction 1; simpl; congruence. Qed.

End PyFacts.

(* ================================================================== *)
(** ** Facts about the body of [main], over arbitrary tables *)

Module GeneratorFacts.
Section Tables.

Variable archs : list string.
Variable build_types : list string.
Variable agents : dict Json.value.
Variable envs : dict Json.value.

Lemma step_ok (args : Args) (arch bt : string) :
  has_key agents arch = true ->
  has_key envs arch = true ->
  exists agent env,
    getitem agents arch = Ok agent /\
    getitem envs arch = Ok env /\
    Generator.step agents envs args arch bt =
    Ok (Generator.step_record args arch bt agent env).
Proof.
  intros Ha He.
  destruct (PyFacts.getitem_has_key _ _ Ha) as [agent Hagent].
  destruct (PyFacts.getitem_has_key _ _ He) as [env Henv].
  exists agent, env. unfold Generator.step. rewrite Hagent, Henv. auto.
Qed.

(** An architecture outside either table raises [KeyError] for it. *)
Lemma step_raises (args : Args) (arch bt : string) :
  has_key agents arch && has_key envs arch = false ->
  Generator.step agents envs args arch bt = Raise (KeyError arch).
Proof.
  intros H. unfold Generator.step.
  destruct (has_key agents arch) eqn:Ha; simpl in H.
  - destruct (PyFacts.getitem_has_key _ _ Ha) as [agent ->]. simpl.
    now rewrite (PyFacts.getitem_no_key _ _ H).
  - now rewrite (PyFacts.getitem_no_key _ _ Ha).
Qed.

(** When every architecture is a key of both tables, the loop ends
    normally with one step per pair of the product, in its order. *)
Lemma pipeline_steps_ok (args : Args) :
  (forall arch, In arch archs ->
                has_key agents arch = true /\ has_key envs arch = true) ->
  exists steps,
    Generator.pipeline_steps archs build_types agents envs args = Ok steps /\
    Forall2 (fun p s => Generator.step agents envs args (fst p) (snd p) = Ok s)
            (product archs (Generator.cur_build_types build_types args)) steps.
Proof.
  intros Hkeys. unfold Generator.pipeline_steps.
  destruct (PyFacts.for_each_append
              (fun '(arch, bt) => Generator.step agents envs args arch bt)
              (product archs (Generator.cur_build_types build_types args)) [])
    as (out & Hrun & Hall).
  - intros [a b] Hin. apply PyFacts.product_In in Hin.
    destruct (Hkeys a (proj1 Hin)) as [Ha He].
    destruct (step_ok args a b Ha He) as (agent & env & _ & _ & Hs).
    eauto.
  - exists out. split; [exact Hrun |].
    eapply Forall2_impl; [| exact Hall]. intros [a b] s H. exact H.
Qed.

Lemma pipeline_steps_length (args : Args) (steps : list Json.value) :
  Forall2 (fun p s => Generator.step agents envs args (fst p) (snd p) = Ok s)
          (product archs (Generator.cur_build_types build_types args)) steps ->
  length steps = length archs * length (Generator.cur_build_types build_types args).
Proof.
  intros H. rewrite (PyFacts.Forall2_length_eq _ _ _ H).
  apply PyFacts.product_length.
Qed.

(** Architecture-major, build-type-minor: the step of the [i]-th
    architecture and the [j]-th build type is at index
    [i * |build types| + j]. *)
Lemma pipeline_steps_order (args : Args) (steps : list Json.value) :
  Forall2 (fun p s => Generator.step agents envs args (fst p) (snd p) = Ok s)
          (product archs (Generator.cur_build_types build_types args)) steps ->
  forall i j arch bt,
    nth_error archs i = Some arch ->
    nth_error (Generator.cur_build_types build_types args) j = Some bt ->
    exists s,
      nth_error steps
                (i * length (Generator.cur_build_types build_types args) + j)
      = Some s /\
      Generator.step agents envs args arch bt = Ok s.
Proof.
  intros H i j arch bt Hi Hj.
  pose proof (PyFacts.product_nth_error _ _ i j arch bt Hi Hj) as Hp.
  destruct (PyFacts.Forall2_nth_error_l _ _ _ H _ _ Hp) as (s & Hs & Hstep).
  exists s. auto.
Qed.

End Tables.
End GeneratorFacts.

(* ================================================================== *)
(** ** Facts about the command line *)

Module CliFacts.
Import Cli.

(** Induction for the consuming loop, which moves on by one string or,
    past an option and its argument, by two. *)
Lemma toks_ind2 {X : Type} (P : list X -> Prop) :
  P [] ->
  (forall t rest,
     P rest ->
     (forall u rest', rest = u :: rest' -> P rest') ->
     P (t :: rest)) ->
  forall l, P l.
Proof.
  intros Hnil Hcons l.
  assert (H : P l /\ forall u rest', l = u :: rest' -> P rest').
  { induction l as [| t l [IH1 IH2]].
    - split; [exact Hnil | discriminate].
    - split; [now apply Hcons |].
      intros u rest' Heq. injection Heq as _ <-. exact IH1. }
  exact (proj1 H).
Qed.

Section Simulation.
(** A relation between namespaces that the two storing actions
    preserve is preserved by parsing. *)
Variable R : Args -> Args -> Prop.
Hypothesis R_store :
  forall o v a b, takes_value o = true -> storable o v = true ->
                  R a b -> R (store o v a) (store o v b).
Hypothesis R_flag :
  forall a b, R a b ->
              R (mkArgs (build_type a) (action a) true)
                (mkArgs (build_type b) (action b) true).

Lemma take_value_alike o v a b :
  takes_value o = true -> R a b ->
  alike R (take_value o v a) (take_value o v b).
Proof.
  intros Ho HR. unfold take_value, get_values.
  destruct (String.eqb v "--").
  - simpl. apply R_store; auto.
    unfold storable. rewrite String.eqb_refl. apply orb_true_r.
  - destruct (check_value o v) eqn:Hc; simpl; auto.
    apply R_store; auto. unfold storable. now rewrite Hc.
Qed.

Lemma take_flag_alike o a b :
  R a b -> alike R (take_flag o a) (take_flag o b).
Proof. intros HR. destruct o; simpl; auto. Qed.

Lemma take_flags_alike os :
  forall a b, R a b -> alike R (take_flags os a) (take_flags os b).
Proof.
  induction os as [| o os IH]; intros a b HR; simpl; [exact HR |].
  pose proof (take_flag_alike o a b HR) as H.
  destruct (take_flag o a), (take_flag o b); simpl in H; try contradiction; auto.
Qed.

Lemma consume_alike (toks : list (string * arg_class)) :
  forall a b extras,
    R a b -> alike R (consume toks a extras) (consume toks b extras).
Proof.
  induction toks as [| [s cls] rest IH1 IH2] using toks_ind2;
    intros a b extras HR.
  - simpl. destruct extras; simpl; auto.
  - destruct cls as [| | [act |] o [e |]]; cbn [consume]; auto.
    + destruct (takes_value act) eqn:Hv.
      * pose proof (take_value_alike act e a b Hv HR) as H.
        destruct (take_value act e a), (take_value act e b);
          simpl in H; try contradiction; auto.
      * destruct (negb (second_is_dash o) && negb (String.eqb e EmptyString));
          simpl; auto.
        destruct (cluster act e) as [os | err]; simpl; auto.
        pose proof (take_flags_alike os a b HR) as H.
        destruct (take_flags os a), (take_flags os b);
          simpl in H; try contradiction; auto.
    + destruct (takes_value act) eqn:Hv.
      * destruct rest as [| [v [| | act' o' e']] rest']; simpl; auto.
        pose proof (take_value_alike act v a b Hv HR) as H.
        destruct (take_value act v a), (take_value act v b);
          simpl in H; try contradiction; auto.
        eapply IH2; eauto.
      * pose proof (take_flag_alike act a b HR) as H.
        destruct (take_flag act a), (take_flag act b);
          simpl in H; try contradiction; auto.
Qed.
End Simulation.

Lemma store_parsable o v a :
  takes_value o = true -> storable o v = true ->
  parsable_args a = true -> parsable_args (store o v a) = true.
Proof.
  unfold parsable_args.
  destruct o; try discriminate; intros _ Hc Ha;
    apply andb_true_iff in Ha; destruct Ha as [Ha1 Ha2];
    cbn [store action build_type] in *;
    apply andb_true_iff; split; assumption.
Qed.

(** Only what [_get_values] returns is stored: a value that passed the
    check, or the empty list. *)
Lemma parse_args_parsable (argv : list string) (args : Args) :
  parse_args argv = Parsed args -> parsable_args args = true.
Proof.
  unfold parse_args. destruct (classify argv) as [toks | e]; [| discriminate].
  intros H.
  assert (Hsim : alike (fun a _ => parsable_args a = true)
                       (consume toks defaults []) (consume toks defaults [])).
  { apply consume_alike.
    - intros o v a b Ho Hc Ha. now apply store_parsable.
    - intros a b Ha. exact Ha.
    - reflexivity. }
  rewrite H in Hsim. exact Hsim.
Qed.

(** Parsing twice from namespaces with the same selection ends
    alike. *)
Lemma consume_same_selection toks a b extras :
  same_selection a b ->
  alike same_selection (consume toks a extras) (consume toks b extras).
Proof.
  apply consume_alike.
  - intros o v x y _ _ [H1 H2]. destruct o; split; simpl; congruence.
  - intros x y H. exact H.
Qed.

(** *** Refusals *)

Lemma take_value_cases o v ns :
  (exists ns', take_value o v ns = Parsed ns') \/
  (exists e, take_value o v ns = Failed e).
Proof.
  unfold take_value. destruct (get_values o v); eauto.
Qed.

Lemma take_value_failed o v ns :
  String.eqb v "--" = false ->
  check_value o v = false ->
  take_value o v ns = Failed (invalid_choice o v).
Proof.
  intros Hv Hc. unfold take_value, get_values. now rewrite Hv, Hc.
Qed.

Lemma take_value_stored o v ns :
  String.eqb v "--" = false ->
  check_value o v = true ->
  take_value o v ns = Parsed (store o v ns).
Proof.
  intros Hv Hc. unfold take_value, get_values. now rewrite Hv, Hc.
Qed.

Lemma refused_cons t toks r :
  refused toks r -> refused (t :: toks) r.
Proof.
  destruct r; simpl; auto. intros ->. apply orb_true_r.
Qed.

Lemma refused_cons2 t u toks r :
  refused toks r -> refused (t :: u :: toks) r.
Proof. intros H. now do 2 apply refused_cons. Qed.

Lemma take_flags_not_calm os ns :
  take_flags os ns = HelpExit \/
  (exists ns', take_flags os ns = Parsed ns').
Proof.
  revert ns. induction os as [| o os IH]; intros ns; simpl; eauto.
  destruct o; simpl; eauto.
Qed.

(** The end of a cluster of flags: either one of them was the help
    flag, and the string was not calm, or the loop goes on. *)
Ltac help_or_go_on Hc act os ns go_on :=
  destruct (take_flags_not_calm os ns) as [-> | [? ->]];
  [ simpl; apply andb_prop in Hc; destruct Hc as [Hc _];
    apply negb_true_iff in Hc;
    destruct act; try discriminate; simpl; now rewrite ?Hc
  | apply refused_cons; go_on ].

(** Strings left over are never forgiven. *)
Lemma extras_refused (toks : list (string * arg_class)) :
  forall ns extras,
    extras <> [] -> refused toks (consume toks ns extras).
Proof.
  induction toks as [| [s cls] rest IH1 IH2] using toks_ind2;
    intros ns extras Hne.
  - simpl. destruct extras; [congruence | exact I].
  - assert (Hgrow : forall x, (extras ++ [ x ])%list <> []).
    { intros x H. apply app_eq_nil in H. destruct H; discriminate. }
    destruct cls as [| | [act |] o [e |]]; cbn [consume];
      try (apply refused_cons; apply IH1; apply Hgrow).
    + destruct (takes_value act) eqn:Hv.
      * destruct (take_value_cases act e ns) as [[? ->] | [? ->]]; [| exact I].
        apply refused_cons. now apply IH1.
      * destruct (negb (second_is_dash o) && negb (String.eqb e EmptyString))
          eqn:Hc; [| exact I].
        destruct (cluster act e) as [os | err]; [| exact I].
        help_or_go_on Hc act os ns ltac:(now apply IH1).
    + destruct (takes_value act) eqn:Hv.
      * destruct rest as [| [v [| | act' o' e']] rest']; try exact I.
        destruct (take_value_cases act v ns) as [[? ->] | [? ->]]; [| exact I].
        apply refused_cons2. eapply IH2; eauto.
      * destruct act; try discriminate; simpl.
        -- reflexivity.
        -- apply refused_cons. now apply IH1.
Qed.

(** Nor is a [--], which no option takes as its argument. *)
Lemma dashdash_refused (toks : list (string * arg_class)) :
  forall ns extras s,
    In (s, DashDash) toks -> refused toks (consume toks ns extras).
Proof.
  induction toks as [| [s0 cls] rest IH1 IH2] using toks_ind2;
    intros ns extras s Hin; [contradiction |].
  assert (Hrest : cls <> DashDash -> In (s, DashDash) rest).
  { intros Hcls. destruct Hin as [Heq | Hin]; [| exact Hin].
    injection Heq as _ Heq. congruence. }
  destruct cls as [| | [act |] o [e |]]; cbn [consume];
    try (apply refused_cons; eapply IH1; apply Hrest; discriminate).
  - apply refused_cons. apply extras_refused.
    intros H. apply app_eq_nil in H. destruct H; discriminate.
  - destruct (takes_value act) eqn:Hv.
    + destruct (take_value_cases act e ns) as [[? ->] | [? ->]]; [| exact I].
      apply refused_cons. eapply IH1. apply Hrest. discriminate.
    + destruct (negb (second_is_dash o) && negb (String.eqb e EmptyString)) eqn:Hc;
        [| exact I].
      destruct (cluster act e) as [os | err]; [| exact I].
      help_or_go_on Hc act os ns ltac:(eapply IH1; apply Hrest; discriminate).
  - destruct (takes_value act) eqn:Hv.
    + destruct rest as [| [v [| | act' o' e']] rest']; try exact I.
      destruct (take_value_cases act v ns) as [[? ->] | [? ->]]; [| exact I].
      apply refused_cons2. eapply IH2; [reflexivity |].
      specialize (Hrest ltac:(discriminate)).
      destruct Hrest as [Heq | Hin']; [discriminate | exact Hin'].
    + destruct act; try discriminate; simpl.
      * reflexivity.
      * apply refused_cons. eapply IH1. apply Hrest. discriminate.
Qed.


(** *** Classification *)

Lemma get_option_tuples_table s act o e :
  In (act, o, e) (get_option_tuples s) ->
  In (o, act) option_string_actions.
Proof.
  unfold get_option_tuples.
  destruct (second_is_dash s).
  - destruct (if contains_char "=" s
              then let (a, b) := split_first "=" s in (a, Some b)
              else (s, None)) as [option_prefix explicit_arg].
    rewrite in_flat_map. intros ([o' act'] & Hin & H).
    destruct (String.prefix option_prefix o'); [| contradiction].
    destruct H as [H | []]. injection H as <- <- _. exact Hin.
  - rewrite in_flat_map. intros ([o' act'] & Hin & H).
    destruct (String.eqb o' (substring 0 2 s)).
    + destruct H as [H | []]. injection H as <- <- _. exact Hin.
    + destruct (String.prefix s o'); [| contradiction].
      destruct H as [H | []]. injection H as <- <- _. exact Hin.
Qed.

Lemma lookup_option_In table s act :
  lookup_option table s = Some act -> In (s, act) table.
Proof.
  induction table as [| [o a] table IH]; simpl; [discriminate |].
  destruct (String.eqb_spec s o) as [-> | _].
  - intros H. injection H as ->. now left.
  - intros H. right. now apply IH.
Qed.

(** The option tuple of a string names an option of the parser. *)
Lemma parse_optional_table s act o e :
  parse_optional s = Got (O (Some act) o e) ->
  In (o, act) option_string_actions.
Proof.
  unfold parse_optional. destruct s as [| c s']; [discriminate |].
  destruct (negb (Ascii.eqb c "-")); [discriminate |].
  destruct (lookup_option option_string_actions (String c s')) as [a |] eqn:Hl.
  { intros H. injection H as <- <- _. now apply lookup_option_In. }
  destruct (Nat.eqb (String.length (String c s')) 1); [discriminate |].
  destruct (if contains_char "=" (String c s')
            then let (o0, e0) := split_first "=" (String c s') in
                 match lookup_option option_string_actions o0 with
                 | Some act0 => Some (O (Some act0) o0 (Some e0))
                 | None => None
                 end
            else None) as [cls |] eqn:Heq.
  { intros H. injection H as ->.
    destruct (contains_char "=" (String c s')); [| discriminate].
    destruct (split_first "=" (String c s')) as [o0 e0].
    destruct (lookup_option option_string_actions o0) as [a |] eqn:Hl0;
      [| discriminate].
    injection Heq as <- <- _. now apply lookup_option_In. }
  destruct (get_option_tuples (String c s')) as [| [[a o1] e1] [| t l]] eqn:Ht.
  - destruct (negative_number (String c s')); [discriminate |].
    destruct (contains_char " " (String c s')); discriminate.
  - intros H. injection H as <- <- <-.
    apply (get_option_tuples_table (String c s') a o1 e1).
    rewrite Ht. now left.
  - discriminate.
Qed.

(** A string that does not ask for help has a calm class. *)
Lemma parse_optional_calm s cls :
  parse_optional s = Got cls -> asks_help s = false -> calm cls = true.
Proof.
  intros Hp Hh. unfold asks_help in Hh. rewrite Hp in Hh.
  destruct cls as [| | [[| | |] |] o [e |]]; try reflexivity; try discriminate.
  apply parse_optional_table in Hp. simpl in Hp.
  repeat (destruct Hp as [Hp | Hp]; [injection Hp as <-; try discriminate |]);
    try reflexivity; try contradiction.
Qed.

Lemma classify_option s rest cls :
  String.eqb s "--" = false ->
  parse_optional s = Got cls ->
  classify (s :: rest) =
  match classify rest with
  | Got l => Got ((s, cls) :: l)
  | Error e => Error e
  end.
Proof. intros Hs Hp. simpl. now rewrite Hs, Hp. Qed.

Lemma classify_cons s rest toks :
  classify (s :: rest) = Got toks ->
  exists cls crest, toks = (s, cls) :: crest.
Proof.
  simpl. destruct (String.eqb s "--").
  - intros H. injection H as <-. eauto.
  - destruct (parse_optional s); [| discriminate].
    destruct (classify rest); [| discriminate].
    intros H. injection H as <-. eauto.
Qed.


(** The classes of a command line cut in two: those of the first part
    come from its own strings; those of the second part are its own
    classification, unless a [--] of the first part has turned them all
    into arguments. *)
Lemma classify_app (pre suf : list string) :
  forall toks,
    classify (pre ++ suf) = Got toks ->
    exists cpre csuf,
      toks = (cpre ++ csuf)%list /\
      Forall (fun t => In (fst t) pre /\
                       (snd t = A \/ snd t = DashDash \/
                        parse_optional (fst t) = Got (snd t))) cpre /\
      (classify suf = Got csuf \/
       ((exists s, In (s, DashDash) cpre) /\
        Forall (fun t => snd t = A) csuf)).
Proof.
  induction pre as [| s pre IH]; intros toks H.
  - exists [], toks. split; [reflexivity |]. split; [constructor | now left].
  - cbn [app classify] in H.
    destruct (String.eqb s "--") eqn:Hs.
    + injection H as <-. rewrite map_app.
      exists ((s, DashDash) :: map (fun t => (t, A)) pre),
             (map (fun t => (t, A)) suf).
      split; [reflexivity |]. split; [| right; split].
      * constructor; [simpl; auto |].
        apply Forall_forall. intros t Ht. apply in_map_iff in Ht.
        destruct Ht as (x & <- & Hx). simpl. auto.
      * exists s. now left.
      * apply Forall_forall. intros t Ht. apply in_map_iff in Ht.
        destruct Ht as (x & <- & _). reflexivity.
    + destruct (parse_optional s) as [cls | e] eqn:Hp; [| discriminate].
      destruct (classify (pre ++ suf)) as [l | e]; [| discriminate].
      injection H as <-.
      destruct (IH l eq_refl) as (cpre & csuf & -> & Hpre & Hsuf).
      exists ((s, cls) :: cpre), csuf.
      split; [reflexivity |]. split; [| destruct Hsuf as [Hsuf | [[x Hx] Hall]]].
      * constructor; [simpl; auto |].
        eapply Forall_impl; [| exact Hpre]. simpl. intros t [Hin Ht]. auto.
      * now left.
      * right. split; [exists x; now right | exact Hall].
Qed.

Lemma calm_not_refused_by_help (toks : list (string * arg_class)) :
  Forall (fun t => calm (snd t) = true) toks ->
  existsb (fun t => negb (calm (snd t))) toks = false.
Proof.
  induction 1 as [| t toks Ht _ IH]; simpl; [reflexivity |].
  now rewrite Ht, IH.
Qed.

(** A refusal that cannot be the help text is an error. *)
Lemma refused_failed (toks : list (string * arg_class)) r :
  Forall (fun t => calm (snd t) = true) toks ->
  refused toks r -> exists e, r = Failed e.
Proof.
  intros Hcalm Hr. destruct r as [a | | e]; simpl in Hr.
  - contradiction.
  - rewrite (calm_not_refused_by_help _ Hcalm) in Hr. discriminate.
  - eauto.
Qed.






End CliFacts.

(* ================================================================== *)
(** ** The script's tables *)

Lemma tables_cover_archs (arch : string) :
  In arch archs ->
  has_key agents arch = true /\ has_key envs arch = true.
Proof. intros [<- | []]. split; reflexivity. Qed.

Lemma step_aarch64 (args : Args) (bt : string) :
  exists agent env,
    getitem agents "aarch64" = Ok agent /\
    getitem envs "aarch64" = Ok env /\
    Generator.step agents envs args "aarch64" bt =
    Ok (Generator.step_record args "aarch64" bt agent env).
Proof. apply GeneratorFacts.step_ok; reflexivity. Qed.

Lemma main_pipeline_steps (args : Args) (steps : list Json.value) :
  pipeline_steps args = Ok steps ->
  main args = Ok (Json.dumps 2 (Generator.pipeline steps) ++ nl).
Proof.
  unfold main, Generator.main, pipeline_steps. now intros ->.
Qed.

Lemma cur_build_types_nonempty (args : Args) :
  cur_build_types args <> [].
Proof.
  unfold cur_build_types, Generator.cur_build_types.
  destruct (build_type args); discriminate.
Qed.

(** The loop in closed form: with the one architecture of [archs], one
    step per selected build type, each holding the [aarch64] entries of
    the two tables. *)
Lemma pipeline_steps_closed (args : Args) :
  exists agent env,
    getitem agents "aarch64" = Ok agent /\
    getitem envs "aarch64" = Ok env /\
    pipeline_steps args =
    Ok (map (fun bt => Generator.step_record args "aarch64" bt agent env)
            (cur_build_types args)).
Proof.
  destruct (step_aarch64 args EmptyString) as (agent & env & Ha & He & _).
  exists agent, env. split; [exact Ha |]. split; [exact He |].
  destruct (GeneratorFacts.pipeline_steps_ok archs build_types agents envs args
              tables_cover_archs) as (steps & Hrun & Hall).
  unfold pipeline_steps. rewrite Hrun. f_equal. clear Hrun.
  change (product archs (Generator.cur_build_types build_types args))
    with (map (fun y => ("aarch64", y)) (cur_build_types args) ++ [])%list in Hall.
  rewrite app_nil_r in Hall.
  revert steps Hall.
  induction (cur_build_types args) as [| bt l IH]; intros steps Hall;
    inversion Hall as [| p s ps ss Hs Hrest]; subst; [reflexivity |].
  simpl in Hs. destruct (step_aarch64 args bt) as (agent' & env' & Ha' & He' & Heq).
  rewrite Heq in Hs. injection Hs as <-.
  assert (agent' = agent) by congruence.
  assert (env' = env) by congruence. subst.
  simpl. f_equal. now apply IH.
Qed.

Lemma main_same_selection (a b : Args) :
  same_selection a b -> main a = main b.
Proof.
  destruct a as [bt act flag], b as [bt' act' flag'].
  unfold same_selection. simpl. intros [-> ->]. reflexivity.
Qed.

(** A document is printed only from a namespace the parser returned,
    each of whose values passed the check or is the empty list. *)
Lemma printed_from_parsed_args (argv : list string) (out : string) :
  script argv = Printed out ->
  exists args,
    Cli.parse_args argv = Cli.Parsed args /\
    parsable_args args = true /\
    main args = Ok out.
Proof.
  unfold script. destruct (Cli.parse_args argv) as [a | |] eqn:Hp; try discriminate.
  destruct (main a) as [o | e] eqn:Hm; [| discriminate].
  intros H. injection H as <-. exists a.
  split; [reflexivity |]. split; [| exact Hm].
  now apply (CliFacts.parse_args_parsable argv).
Qed.

(** The tables at work on lists that are not sorted: the steps come in
    the order of the lists, the architecture varying slowest. *)
Example product_order_of_the_lists :
  let tables := [ ("x86_64", Json.Null); ("aarch64", Json.Null) ] in
  match Generator.pipeline_steps [ "x86_64"; "aarch64" ] [ "RelWithDebInfo"; "Debug" ]
                                 tables tables (mkArgs None "build" false) with
  | Ok steps =>
      map (Json.field "key") steps =
      [ Some (Json.Str "build_test_macos-x86_64-RelWithDebInfo");
        Some (Json.Str "build_test_macos-x86_64-Debug");
        Some (Json.Str "build_test_macos-aarch64-RelWithDebInfo");
        Some (Json.Str "build_test_macos-aarch64-Debug") ]
  | Raise _ => False
  end.
Proof. reflexivity. Qed.

(** An architecture missing from a table is what would raise. *)
Example missing_architecture_raises :
  Generator.pipeline_steps [ "aarch64"; "x86_64" ] build_types agents envs
                           (mkArgs None "build" false)
  = Raise (KeyError "x86_64").
Proof. reflexivity. Qed.

Lemma valid_args_cases (a : Args) :
  valid_args a = true ->
  (action a = "build" \/ action a = "debug") /\
  (build_type a = None \/ build_type a = Some "RelWithDebInfo").
Proof.
  unfold valid_args, mem, actions, build_types. intros H.
  apply andb_prop in H. destruct H as [Hact Hbt]. split.
  - cbn [existsb] in Hact.
    destruct (String.eqb_spec (action a) "build"); [now left |].
    destruct (String.eqb_spec (action a) "debug"); [now right |].
    discriminate.
  - destruct (build_type a) as [bt |]; [| now left].
    cbn [existsb] in Hbt.
    destruct (String.eqb_spec bt "RelWithDebInfo"); [subst; now right |].
    discriminate.
Qed.

(* ================================================================== *)
(** ** Concrete runs *)

(** C1. [--build-type RelWithDebInfo --action debug] yields exactly one
    step; its commands are the conditional export with [debug]
    interpolated, which the shell runs, followed by the build-and-test
    script.  With [--action build] the first command is the same
    conditional with [build] interpolated, and the shell does not run the
    export. *)
Theorem debug_action_commands :
  let debug_cmd :=
    "if [[ " ++ q ++ "debug" ++ q ++ " == " ++ q ++ "debug" ++ q
             ++ " ]]; then export ML_DEBUG=1; fi" in
  let build_cmd :=
    "if [[ " ++ q ++ "build" ++ q ++ " == " ++ q ++ "debug" ++ q
             ++ " ]]; then export ML_DEBUG=1; fi" in
  let script_cmd := ".buildkite/scripts/steps/build_and_test.sh" in
  (Cli.parse_args [ "--build-type"; "RelWithDebInfo"; "--action"; "debug" ]
   = Cli.Parsed (mkArgs (Some "RelWithDebInfo") "debug" false) /\
   exists s,
     pipeline_steps (mkArgs (Some "RelWithDebInfo") "debug" false) = Ok [ s ] /\
     Json.field "commands" s
     = Some (Json.Arr [ Json.Str debug_cmd; Json.Str script_cmd ]) /\
     Shell.conditional_export debug_cmd = Some true) /\
  (Cli.parse_args [ "--build-type"; "RelWithDebInfo"; "--action"; "build" ]
   = Cli.Parsed (mkArgs (Some "RelWithDebInfo") "build" false) /\
   exists s,
     pipeline_steps (mkArgs (Some "RelWithDebInfo") "build" false) = Ok [ s ] /\
     Json.field "commands" s
     = Some (Json.Arr [ Json.Str build_cmd; Json.Str script_cmd ]) /\
     Shell.conditional_export build_cmd = Some false).
Proof.
  cbv zeta. split.
  - split; [reflexivity |]. eexists. split; [reflexivity |].
    split; reflexivity.
  - split; [reflexivity |]. eexists. split; [reflexivity |].
    split; reflexivity.
Qed.

(** C2. Without any flag the parser returns the defaults and the loop
    emits one step per build type of the fixed list, that is exactly one,
    for [RelWithDebInfo], with the stated label, dependency and key. *)
Theorem default_run_step :
  Cli.parse_args [] = Cli.Parsed (mkArgs None "build" false) /\
  build_types = [ "RelWithDebInfo" ] /\
  exists steps,
    pipeline_steps (mkArgs None "build" false) = Ok steps /\
    length steps = length build_types /\
    Forall2
      (fun bt s =>
         Json.field "label" s
         = Some (Json.Str ("Build & test :cpp: for MacOS-aarch64-" ++ bt
                           ++ " :macos:")) /\
         Json.field "depends_on" s = Some (Json.Str "check_style") /\
         Json.field "key" s
         = Some (Json.Str ("build_test_macos-aarch64-" ++ bt)))
      build_types steps /\
    exists s,
      steps = [ s ] /\
      Json.field "label" s
      = Some (Json.Str "Build & test :cpp: for MacOS-aarch64-RelWithDebInfo :macos:") /\
      Json.field "depends_on" s = Some (Json.Str "check_style") /\
      Json.field "key" s
      = Some (Json.Str "build_test_macos-aarch64-RelWithDebInfo").
Proof.
  split; [reflexivity |]. split; [reflexivity |].
  eexists. split; [reflexivity |]. split; [reflexivity |]. split.
  - repeat constructor.
  - eexists. split; [reflexivity |]. repeat split.
Qed.

(* ================================================================== *)
(** ** Cardinality and order *)

(** C3. The loop emits |architectures| x |selected build types| steps:
    1 x 1 with a build type given, 1 x |build_types| otherwise; the step of
    the [i]-th architecture and [j]-th selected build type is the one at
    index [i * |selected build types| + j], both lists in their own
    order. *)
Theorem step_count_and_order (args : Args) :
  exists steps,
    pipeline_steps args = Ok steps /\
    length steps = length archs * length (cur_build_types args) /\
    (forall bt, build_type args = Some bt -> length steps = 1 * 1) /\
    (build_type args = None -> length steps = 1 * length build_types) /\
    (forall i j arch bt,
       nth_error archs i = Some arch ->
       nth_error (cur_build_types args) j = Some bt ->
       exists s,
         nth_error steps (i * length (cur_build_types args) + j) = Some s /\
         Generator.step agents envs args arch bt = Ok s /\
         Json.field "key" s = Some (Json.Str (Generator.key_of arch bt))).
Proof.
  destruct (GeneratorFacts.pipeline_steps_ok archs build_types agents envs args
              tables_cover_archs) as (steps & Hrun & Hall).
  pose proof (GeneratorFacts.pipeline_steps_length _ _ _ _ _ _ Hall) as Hlen.
  exists steps. split; [exact Hrun |]. split; [exact Hlen |].
  split; [| split].
  - intros bt Hbt. rewrite Hlen.
    unfold Generator.cur_build_types. now rewrite Hbt.
  - intros Hbt. rewrite Hlen.
    unfold Generator.cur_build_types. now rewrite Hbt.
  - intros i j arch bt Hi Hj.
    destruct (GeneratorFacts.pipeline_steps_order _ _ _ _ _ _ Hall _ _ _ _ Hi Hj)
      as (s & Hs & Hstep).
    exists s. split; [exact Hs |]. split; [exact Hstep |].
    assert (Harch : In arch archs) by (eapply nth_error_In; eauto).
    destruct Harch as [<- | []].
    destruct (step_aarch64 args bt) as (agent & env & _ & _ & Heq).
    rewrite Heq in Hstep. injection Hstep as <-. reflexivity.
Qed.

(* ================================================================== *)
(** ** The printed document *)

(** C4. The printed text is [json.dumps] with an indent of two of an
    object whose only key is [steps], holding the array of the steps in
    order; every step has exactly the ten fields of the template, nested
    as in it; and an indent of two puts each member of an object and each
    item of an array on a line of its own, two spaces deeper than the
    container.  For every valid input the text is, character for
    character, the document of [expected_document]: one JSON object, its
    strings between double quotes and the quotes inside the first command
    escaped. *)
Theorem pipeline_document_shape (args : Args) :
  exists steps,
    pipeline_steps args = Ok steps /\
    main args = Ok (Json.dumps 2 (Json.Obj [ ("steps", Json.Arr steps) ]) ++ nl) /\
    (valid_args args = true ->
     main args = Ok (expected_document (action args)) /\
     script [ "--action"; action args ] = Printed (expected_document (action args))) /\
    Forall step_shaped steps /\
    Forall (fun s =>
              Json.keys s =
              [ "label"; "timeout_in_minutes"; "agents"; "commands";
                "depends_on"; "key"; "env"; "artifact_paths"; "plugins";
                "notify" ]) steps /\
    Json.dumps 2 (Json.Obj [ ("steps", Json.Arr steps) ]) =
    "{" ++ line 2 1 (q ++ "steps" ++ q ++ ": ["
                       ++ join "," (map (fun s => line 2 2 (Json.iterencode "  " 2 s))
                                        steps)
                       ++ line 2 1 "]")
        ++ line 2 0 "}" /\
    (forall level members,
       members <> [] ->
       Json.iterencode "  " level (Json.Obj members) =
       "{" ++ join ","
                (map (fun kv =>
                        line 2 (S level)
                             (Json.encode_basestring_ascii (fst kv) ++ ": "
                              ++ Json.iterencode "  " (S level) (snd kv)))
                     members)
           ++ line 2 level "}") /\
    (forall level items,
       items <> [] ->
       Json.iterencode "  " level (Json.Arr items) =
       "[" ++ join ","
                (map (fun x => line 2 (S level) (Json.iterencode "  " (S level) x))
                     items)
           ++ line 2 level "]").
Proof.
  destruct (pipeline_steps_closed args) as (agent & env & Ha & He & Hrun).
  vm_compute in Ha. injection Ha as <-.
  assert (Henv : exists env0, env = Json.Obj env0 /\
                              Forall (fun kv => is_str (snd kv)) env0).
  { vm_compute in He. injection He as <-. eexists. split; [reflexivity |].
    repeat constructor; eexists; reflexivity. }
  destruct Henv as (env0 & -> & Hstr). clear He.
  eexists. split; [exact Hrun |].
  split; [exact (main_pipeline_steps _ _ Hrun) |].
  split; [| split; [| split; [| split; [| split]]]].
  - clear Hrun Hstr. intros Hvalid.
    destruct (valid_args_cases args Hvalid) as [Hact Hbt].
    destruct args as [bt act flag]. cbn [action build_type] in *.
    destruct Hact as [-> | ->], Hbt as [-> | ->];
      split; vm_compute; reflexivity.
  - apply Forall_forall. intros s Hs. apply in_map_iff in Hs.
    destruct Hs as (bt & <- & _).
    unfold step_shaped, Generator.step_record.
    do 12 eexists. split; cycle 1; [reflexivity | exact Hstr].
  - apply Forall_forall. intros s Hs. apply in_map_iff in Hs.
    destruct Hs as (bt & <- & _). reflexivity.
  - unfold Json.dumps.
    rewrite (JsonFacts.object_layout 2 0) by discriminate.
    cbn [map fst snd join]. f_equal.
    rewrite (JsonFacts.array_layout 2 1).
    + change (repeat_string " " 2) with "  ".
      match goal with
      | |- context [join "," ?l] => generalize (join "," l)
      end.
      intros body. reflexivity.
    + intros Hnil. apply map_eq_nil in Hnil.
      exact (cur_build_types_nonempty args Hnil).
  - intros level members. exact (JsonFacts.object_layout 2 level members).
  - intros level items. exact (JsonFacts.array_layout 2 level items).
Qed.

(* ================================================================== *)
(** ** Lookups *)

(** C8. The keys of both tables are the architectures of [archs], so
    each subscript of the loop finds its entry: for any arguments the loop
    and [main] end normally, and no run of the script ends in an uncaught
    exception. *)
Theorem lookups_never_fail (args : Args) :
  map fst agents = archs /\
  map fst envs = archs /\
  (forall arch,
     In arch archs ->
     exists agent env,
       getitem agents arch = Ok agent /\ getitem envs arch = Ok env) /\
  (exists steps, pipeline_steps args = Ok steps) /\
  (exists out, main args = Ok out) /\
  (forall argv e, script argv <> Traceback e).
Proof.
  assert (Hmain : forall a, exists out, main a = Ok out).
  { intros a. destruct (pipeline_steps_closed a) as (? & ? & _ & _ & Hrun).
    eexists. exact (main_pipeline_steps _ _ Hrun). }
  split; [reflexivity |]. split; [reflexivity |]. split; [| split; [| split]].
  - intros arch Hin. destruct (tables_cover_archs arch Hin) as [Hag Hen].
    destruct (PyFacts.getitem_has_key _ _ Hag) as [agent ?].
    destruct (PyFacts.getitem_has_key _ _ Hen) as [env ?]. eauto.
  - destruct (pipeline_steps_closed args) as (? & ? & _ & _ & Hrun). eauto.
  - apply Hmain.
  - intros argv e. unfold script.
    destruct (Cli.parse_args argv) as [a | |]; try discriminate.
    destruct (Hmain a) as [out ->]. discriminate.
Qed.

(* ================================================================== *)
(** ** Field values *)

(** C9. Whatever the action, [debug] included, the [env] of every
    emitted step maps [ML_DEBUG] to the string [0]; two runs that differ
    in the action only emit steps that agree on every field but
    [commands]. *)
Theorem env_ml_debug_is_zero (args : Args) :
  (exists steps,
     pipeline_steps args = Ok steps /\
     Forall (fun s =>
               exists env,
                 Json.field "env" s = Some env /\
                 Json.field "ML_DEBUG" env = Some (Json.Str "0"))
            steps) /\
  (forall act,
     exists steps steps',
       pipeline_steps args = Ok steps /\
       pipeline_steps (mkArgs (build_type args) act (build_aarch64 args)) = Ok steps' /\
       Forall2 (fun s s' =>
                  Json.field "env" s = Json.field "env" s' /\
                  forall k, k <> "commands" -> Json.field k s = Json.field k s')
               steps steps').
Proof.
  destruct (pipeline_steps_closed args) as (agent & env & Ha & He & Hrun).
  split.
  - eexists. split; [exact Hrun |].
    vm_compute in He. injection He as <-.
    apply Forall_forall. intros s Hs. apply in_map_iff in Hs.
    destruct Hs as (bt & <- & _).
    eexists. split; reflexivity.
  - intros act.
    destruct (pipeline_steps_closed (mkArgs (build_type args) act (build_aarch64 args)))
      as (agent' & env' & Ha' & He' & Hrun').
    assert (agent' = agent) by congruence.
    assert (env' = env) by congruence. subst.
    do 2 eexists. split; [exact Hrun |]. split; [exact Hrun' |].
    change (cur_build_types (mkArgs (build_type args) act (build_aarch64 args)))
      with (cur_build_types args).
    clear Hrun Hrun'.
    induction (cur_build_types args) as [| bt l IH]; simpl; [constructor |].
    constructor; [| exact IH].
    split; [reflexivity |].
    intros k Hk. cbn [Json.field Json.assoc Generator.step_record].
    repeat match goal with
           | |- context [String.eqb k ?x] =>
               destruct (String.eqb_spec k x); [try reflexivity; congruence |]
           end.
    reflexivity.
Qed.

(** C10. In every emitted step [timeout_in_minutes] is the string
    [300], printed between quotes where the number would be printed bare,
    and [artifact_paths] is one string holding the two glob patterns
    separated by a semicolon, not an array. *)
Theorem timeout_and_artifact_paths_are_strings (args : Args) :
  (exists steps,
     pipeline_steps args = Ok steps /\
     Forall (fun s =>
               Json.field "timeout_in_minutes" s = Some (Json.Str "300") /\
               exists paths,
                 Json.field "artifact_paths" s = Some (Json.Str paths) /\
                 split_all ";" paths =
                 [ "*/**/unittest/boost_test_results.junit";
                   "*/**/unittest/ml_test_*" ])
            steps) /\
  Json.dumps 2 (Json.Str "300") = q ++ "300" ++ q /\
  Json.dumps 2 (Json.Int 300) = "300".
Proof.
  split; [| split; reflexivity].
  destruct (pipeline_steps_closed args) as (agent & env & _ & _ & Hrun).
  eexists. split; [exact Hrun |].
  apply Forall_forall. intros s Hs. apply in_map_iff in Hs.
  destruct Hs as (bt & <- & _).
  split; [reflexivity |]. eexists. split; reflexivity.
Qed.

(* ================================================================== *)
(** ** Inputs and outputs *)

(** C5. [--build-aarch64] is accepted and has no effect: [main] prints
    the same text whether [args.build_aarch64] is set or not, and a command
    line with the flag added in front ends exactly as without it. *)
Theorem build_aarch64_flag_is_inert :
  Cli.parse_args [ "--build-aarch64" ] = Cli.Parsed (mkArgs None "build" true) /\
  (forall bt act flag flag',
     main (mkArgs bt act flag) = main (mkArgs bt act flag')) /\
  (forall argv, script ("--build-aarch64" :: argv) = script argv).
Proof.
  split; [reflexivity |]. split.
  - intros bt act flag flag'. apply main_same_selection. split; reflexivity.
  - intros argv. unfold script, Cli.parse_args.
    rewrite (CliFacts.classify_option "--build-aarch64" argv
               (Cli.O (Some Cli.OptBuildAarch64) "--build-aarch64" None))
      by reflexivity.
    destruct (Cli.classify argv) as [toks | e]; [| reflexivity].
    cbn [Cli.consume Cli.takes_value Cli.take_flag].
    pose proof (CliFacts.consume_same_selection toks
                  (mkArgs (build_type Cli.defaults) (action Cli.defaults) true)
                  Cli.defaults [] (conj eq_refl eq_refl)) as H.
    destruct (Cli.consume toks _ []) as [a | | e1],
             (Cli.consume toks Cli.defaults []) as [b | | e2];
      simpl in H; try contradiction; try reflexivity.
    + now rewrite (main_same_selection a b H).
    + now subst.
Qed.




(* ================================================================== *)
(** ** Further properties of the generation loop *)

Module LoopFacts.

Lemma append_cancel_l (p x y : string) :
  p ++ x = p ++ y -> x = y.
Proof.
  induction p as [| c p IH]; simpl; [auto |].
  intros H. injection H as H. now apply IH.
Qed.

(** Two texts cut at a dash coincide piece by piece when the pieces
    before the dash hold none. *)
Lemma dash_split_unique (a : string) :
  forall a' b b',
    no_dash a = true -> no_dash a' = true ->
    a ++ String "-" b = a' ++ String "-" b' ->
    a = a' /\ b = b'.
Proof.
  unfold no_dash.
  induction a as [| c a IH]; intros [| c' a'] b b' Ha Ha' H;
    cbn [contains_char] in Ha, Ha'; cbn [append] in H.
  - injection H as Hb. subst. auto.
  - injection H as Hc _. subst c'. rewrite Ascii.eqb_refl in Ha'. discriminate.
  - injection H as Hc _. subst c. rewrite Ascii.eqb_refl in Ha. discriminate.
  - injection H as Hc H. subst c'.
    apply negb_true_iff, orb_false_iff in Ha. destruct Ha as [_ Ha].
    apply negb_true_iff, orb_false_iff in Ha'. destruct Ha' as [_ Ha'].
    destruct (IH a' b b') as [-> ->]; auto; now apply negb_true_iff.
Qed.

Lemma key_of_injective (a a' b b' : string) :
  no_dash a = true -> no_dash a' = true ->
  Generator.key_of a b = Generator.key_of a' b' ->
  a = a' /\ b = b'.
Proof.
  intros Ha Ha' H. unfold Generator.key_of in H.
  apply append_cancel_l in H. now apply dash_split_unique.
Qed.

Lemma product_In_intro {A B : Type} (xs : list A) (ys : list B) (x : A) (y : B) :
  In x xs -> In y ys -> In (x, y) (product xs ys).
Proof.
  induction xs as [| x0 xs IH]; simpl; [contradiction |].
  intros [-> | Hx] Hy; apply in_or_app.
  - left. apply in_map_iff. eauto.
  - right. auto.
Qed.

Lemma product_app {A B : Type} (xs xs' : list A) (ys : list B) :
  product (xs ++ xs') ys = (product xs ys ++ product xs' ys)%list.
Proof.
  induction xs as [| x xs IH]; simpl; [reflexivity |].
  now rewrite IH, app_assoc.
Qed.

Lemma product_nil_r {A B : Type} (xs : list A) :
  product xs (@nil B) = [].
Proof. induction xs as [| x xs IH]; simpl; auto. Qed.

Lemma product_NoDup {A B : Type} (xs : list A) (ys : list B) :
  NoDup xs -> NoDup ys -> NoDup (product xs ys).
Proof.
  intros Hxs Hys. induction Hxs as [| x xs Hx _ IH]; simpl; [constructor |].
  apply NoDup_app.
  - apply NoDup_map_NoDup_ForallPairs; [| exact Hys].
    intros y y' _ _ H. now injection H.
  - exact IH.
  - intros [a b] Hin Hin'. apply in_map_iff in Hin.
    destruct Hin as (y & Heq & _). injection Heq as <- <-.
    apply PyFacts.product_In in Hin'. tauto.
Qed.

Lemma Forall2_nth_error_r {A B : Type} (R : A -> B -> Prop)
      (xs : list A) (ys : list B) :
  Forall2 R xs ys ->
  forall n y, nth_error ys n = Some y ->
              exists x, nth_error xs n = Some x /\ R x y.
Proof.
  induction 1 as [| x0 y0 xs ys HR _ IH]; intros n y Hn.
  - destruct n; discriminate.
  - destruct n as [| n]; simpl in *.
    + injection Hn as <-. eauto.
    + eauto.
Qed.

(** A loop that ended normally has evaluated every element, in order,
    and appended the values to what it started from. *)
Lemma for_each_append_inv {A S : Type} (f : A -> result S) (xs : list A) :
  forall acc out,
    for_each (append_body f) xs acc = Ok out ->
    exists ys,
      out = (acc ++ ys)%list /\
      Forall2 (fun x s => f x = Ok s) xs ys.
Proof.
  induction xs as [| x xs IH]; intros acc out H; simpl in H.
  - injection H as <-. exists []. rewrite app_nil_r. split; constructor.
  - unfold append_body at 1 in H. destruct (f x) as [s | e] eqn:Hs;
      simpl in H; [| discriminate].
    destruct (IH _ _ H) as (ys & -> & Hall).
    exists (s :: ys). rewrite <- app_assoc. split; [reflexivity |].
    now constructor.
Qed.

Section Tables.

Variable archs : list string.
Variable build_types : list string.
Variable agents : dict Json.value.
Variable envs : dict Json.value.

Lemma pipeline_steps_inv (args : Args) (steps : list Json.value) :
  Generator.pipeline_steps archs build_types agents envs args = Ok steps ->
  Forall2 (fun p s => Generator.step agents envs args (fst p) (snd p) = Ok s)
          (product archs (Generator.cur_build_types build_types args)) steps.
Proof.
  unfold Generator.pipeline_steps. intros H.
  destruct (for_each_append_inv _ _ _ _ H) as (ys & -> & Hall).
  simpl. eapply Forall2_impl; [| exact Hall]. intros [a b] s Hs. exact Hs.
Qed.

Lemma step_key (args : Args) (arch bt : string) (s : Json.value) :
  Generator.step agents envs args arch bt = Ok s ->
  Json.field "key" s = Some (Json.Str (Generator.key_of arch bt)).
Proof.
  unfold Generator.step.
  destruct (getitem agents arch); simpl; [| discriminate].
  destruct (getitem envs arch); simpl; [| discriminate].
  intros H. injection H as <-. reflexivity.
Qed.

Lemma steps_keys (args : Args) (pairs : list (string * string))
      (steps : list Json.value) :
  Forall2 (fun p s => Generator.step agents envs args (fst p) (snd p) = Ok s)
          pairs steps ->
  map (Json.field "key") steps =
  map (fun p => Some (Json.Str (Generator.key_of (fst p) (snd p)))) pairs.
Proof.
  induction 1 as [| p s pairs steps Hs _ IH]; simpl; [reflexivity |].
  now rewrite (step_key _ _ _ _ Hs), IH.
Qed.

(** X1. Step keys are unique.  When no architecture name holds a dash
    and neither list repeats an entry, a run that ends normally has given
    every step a key of its own. *)
Theorem step_keys_unique (args : Args) (steps : list Json.value) :
  forallb no_dash archs = true ->
  NoDup archs ->
  NoDup (Generator.cur_build_types build_types args) ->
  Generator.pipeline_steps archs build_types agents envs args = Ok steps ->
  NoDup (map (Json.field "key") steps).
Proof.
  intros Hdash Harchs Hbts Hrun.
  rewrite (steps_keys args _ _ (pipeline_steps_inv _ _ Hrun)).
  apply NoDup_map_NoDup_ForallPairs; [| now apply product_NoDup].
  intros [a b] [a' b'] Hin Hin' H. cbn [fst snd] in H.
  assert (Hkey : Generator.key_of a b = Generator.key_of a' b') by congruence.
  apply PyFacts.product_In in Hin, Hin'.
  rewrite forallb_forall in Hdash.
  destruct (key_of_injective a a' b b') as [-> ->]; auto;
    apply Hdash; tauto.
Qed.

(** X3. [--build-type] only selects.  When the build type given is one
    of [build_types] and the run without it ends normally, the run with it
    ends normally too, emits one step per architecture, and each of them
    is a step of the run without it. *)
Theorem build_type_selects (bt act : string) (flag flag' : bool)
        (all : list Json.value) :
  In bt build_types ->
  Generator.pipeline_steps archs build_types agents envs (mkArgs None act flag)
  = Ok all ->
  exists steps,
    Generator.pipeline_steps archs build_types agents envs
                             (mkArgs (Some bt) act flag') = Ok steps /\
    length steps = length archs /\
    incl steps all.
Proof.
  intros Hbt Hall. apply pipeline_steps_inv in Hall.
  change (Generator.cur_build_types build_types (mkArgs None act flag))
    with build_types in Hall.
  assert (Hin : forall a, In a archs ->
                          exists s, In s all /\
                                    Generator.step agents envs
                                      (mkArgs (Some bt) act flag') a bt = Ok s).
  { intros a Ha.
    destruct (In_nth_error _ _ (product_In_intro archs build_types a bt Ha Hbt))
      as [n Hn].
    destruct (PyFacts.Forall2_nth_error_l _ _ _ Hall _ _ Hn) as (s & Hs & Hstep).
    exists s. split; [eapply nth_error_In; eauto | exact Hstep]. }
  unfold Generator.pipeline_steps.
  destruct (PyFacts.for_each_append
              (fun '(arch, b) =>
                 Generator.step agents envs (mkArgs (Some bt) act flag') arch b)
              (product archs [ bt ]) [])
    as (steps & Hrun & Hsteps).
  { intros [a b] Hp. apply PyFacts.product_In in Hp. destruct Hp as [Ha [<- | []]].
    destruct (Hin a Ha) as (s & _ & Hs). eauto. }
  exists steps. split; [exact Hrun |]. split.
  - rewrite (PyFacts.Forall2_length_eq _ _ _ Hsteps), PyFacts.product_length.
    simpl. lia.
  - intros s Hs. apply In_nth_error in Hs. destruct Hs as [n Hn].
    destruct (Forall2_nth_error_r _ _ _ Hsteps _ _ Hn) as ([a b] & Hp & Hstep).
    apply nth_error_In, PyFacts.product_In in Hp. destruct Hp as [Ha [<- | []]].
    destruct (Hin a Ha) as (s' & Hs' & Hstep'). congruence.
Qed.

(** The loop stops at the first architecture that a table lacks. *)
Lemma first_missing_raises (args : Args) (pre post : list string)
      (arch : string) :
  (forall a, In a pre -> has_key agents a = true /\ has_key envs a = true) ->
  has_key agents arch && has_key envs arch = false ->
  Generator.cur_build_types build_types args <> [] ->
  Generator.pipeline_steps (pre ++ arch :: post) build_types agents envs args
  = Raise (KeyError arch).
Proof.
  intros Hpre Hmiss Hne. unfold Generator.pipeline_steps.
  destruct (Generator.cur_build_types build_types args) as [| b bts] eqn:Hc;
    [congruence |].
  rewrite product_app. cbn [product map app].
  apply PyFacts.for_each_raise.
  - intros [a b'] Hin. apply PyFacts.product_In in Hin.
    destruct (Hpre a (proj1 Hin)) as [Ha He].
    destruct (GeneratorFacts.step_ok agents envs args a b' Ha He)
      as (? & ? & _ & _ & Hs). eauto.
  - now apply GeneratorFacts.step_raises.
Qed.

(** X4. A missing architecture.  When the selection of build types is
    not empty, the first architecture of [archs] that is not a key of both
    tables makes [main] raise [KeyError] for it, and nothing is printed. *)
Theorem missing_architecture_key_error (args : Args) (pre post : list string)
        (arch : string) :
  archs = (pre ++ arch :: post)%list ->
  (forall a, In a pre -> has_key agents a = true /\ has_key envs a = true) ->
  has_key agents arch && has_key envs arch = false ->
  Generator.cur_build_types build_types args <> [] ->
  Generator.pipeline_steps archs build_types agents envs args
  = Raise (KeyError arch) /\
  Generator.main archs build_types agents envs args = Raise (KeyError arch).
Proof.
  intros -> Hpre Hmiss Hne.
  pose proof (first_missing_raises args pre post arch Hpre Hmiss Hne) as H.
  split; [exact H |]. unfold Generator.main. now rewrite H.
Qed.

(** X5. Nothing to build.  Without an architecture, or without a build
    type to select, the loop body never runs: whatever the tables hold, no
    subscript is evaluated and [main] prints the pipeline with an empty
    list of steps. *)
Theorem empty_selection_prints_empty_pipeline (args : Args) :
  archs = [] \/ Generator.cur_build_types build_types args = [] ->
  Generator.pipeline_steps archs build_types agents envs args = Ok [] /\
  Generator.main archs build_types agents envs args
  = Ok ("{" ++ nl ++ "  " ++ q ++ "steps" ++ q ++ ": []" ++ nl ++ "}" ++ nl).
Proof.
  intros H.
  assert (Hrun : Generator.pipeline_steps archs build_types agents envs args
                 = Ok []).
  { unfold Generator.pipeline_steps. destruct H as [-> | ->].
    - reflexivity.
    - now rewrite product_nil_r. }
  split; [exact Hrun |]. unfold Generator.main. now rewrite Hrun.
Qed.

Lemma step_depends_on (args : Args) (arch bt : string) (s : Json.value) :
  Generator.step agents envs args arch bt = Ok s ->
  Json.field "depends_on" s = Some (Json.Str "check_style").
Proof.
  unfold Generator.step.
  destruct (getitem agents arch); simpl; [| discriminate].
  destruct (getitem envs arch); simpl; [| discriminate].
  intros H. injection H as <-. reflexivity.
Qed.

(** X2. The dependency is external.  Every emitted step depends on
    [check_style], and no emitted step has that key: whatever the tables
    and the arguments, the steps of one document never depend on each
    other. *)
Theorem dependency_is_external (args : Args) (steps : list Json.value) :
  Generator.pipeline_steps archs build_types agents envs args = Ok steps ->
  forall s s',
    In s steps -> In s' steps ->
    Json.field "depends_on" s = Some (Json.Str "check_style") /\
    Json.field "key" s' <> Json.field "depends_on" s.
Proof.
  intros Hrun s s' Hs Hs'. apply pipeline_steps_inv in Hrun.
  apply In_nth_error in Hs, Hs'. destruct Hs as [n Hn], Hs' as [n' Hn'].
  destruct (Forall2_nth_error_r _ _ _ Hrun _ _ Hn) as ([a b] & _ & Hstep).
  destruct (Forall2_nth_error_r _ _ _ Hrun _ _ Hn') as ([a' b'] & _ & Hstep').
  rewrite (step_depends_on _ _ _ _ Hstep), (step_key _ _ _ _ Hstep').
  split; [reflexivity |]. unfold Generator.key_of. simpl. discriminate.
Qed.

End Tables.

End LoopFacts.

Lemma step_keys_unique_witness :
  exists steps,
    Generator.pipeline_steps
      [ "x86_64"; "aarch64" ] [ "RelWithDebInfo"; "Debug" ]
      [ ("x86_64", Json.Null); ("aarch64", Json.Null) ]
      [ ("x86_64", Json.Null); ("aarch64", Json.Null) ]
      (mkArgs None "build" false) = Ok steps /\
    length steps = 4 /\
    NoDup (map (Json.field "key") steps).
Proof.
  eexists. split; [reflexivity |]. split; [reflexivity |].
  apply (LoopFacts.step_keys_unique
           [ "x86_64"; "aarch64" ] [ "RelWithDebInfo"; "Debug" ]
           [ ("x86_64", Json.Null); ("aarch64", Json.Null) ]
           [ ("x86_64", Json.Null); ("aarch64", Json.Null) ]
           (mkArgs None "build" false)).
  - reflexivity.
  - repeat constructor; simpl; intuition discriminate.
  - repeat constructor; simpl; intuition discriminate.
  - reflexivity.
Defined.

(** Without the hypothesis on dashes two pairs can share a key. *)
Example dashed_architecture_key_collision :
  Generator.key_of "arm-v8" "Debug" = Generator.key_of "arm" "v8-Debug".
Proof. reflexivity. Qed.

Lemma dependency_is_external_witness :
  exists s,
    pipeline_steps (mkArgs None "debug" false) = Ok [ s ] /\
    Json.field "depends_on" s = Some (Json.Str "check_style") /\
    Json.field "key" s <> Json.field "depends_on" s.
Proof.
  eexists. split; [reflexivity |].
  apply (LoopFacts.dependency_is_external
           archs build_types agents envs (mkArgs None "debug" false) _ eq_refl);
    left; reflexivity.
Defined.

Lemma build_type_selects_witness :
  In "Debug" [ "RelWithDebInfo"; "Debug" ] /\
  exists all steps,
    Generator.pipeline_steps
      [ "x86_64"; "aarch64" ] [ "RelWithDebInfo"; "Debug" ]
      [ ("x86_64", Json.Null); ("aarch64", Json.Null) ]
      [ ("x86_64", Json.Null); ("aarch64", Json.Null) ]
      (mkArgs None "build" false) = Ok all /\
    Generator.pipeline_steps
      [ "x86_64"; "aarch64" ] [ "RelWithDebInfo"; "Debug" ]
      [ ("x86_64", Json.Null); ("aarch64", Json.Null) ]
      [ ("x86_64", Json.Null); ("aarch64", Json.Null) ]
      (mkArgs (Some "Debug") "build" true) = Ok steps /\
    length steps = 2 /\
    incl steps all.
Proof.
  assert (Hin : In "Debug" [ "RelWithDebInfo"; "Debug" ]) by (right; left; reflexivity).
  split; [exact Hin |].
  eexists.
  destruct (LoopFacts.build_type_selects
              [ "x86_64"; "aarch64" ] [ "RelWithDebInfo"; "Debug" ]
              [ ("x86_64", Json.Null); ("aarch64", Json.Null) ]
              [ ("x86_64", Json.Null); ("aarch64", Json.Null) ]
              "Debug" "build" false true _ Hin eq_refl)
    as (steps & Hrun & Hlen & Hincl).
  exists steps. split; [reflexivity |]. auto.
Defined.

Lemma missing_architecture_key_error_witness :
  Generator.pipeline_steps [ "aarch64"; "x86_64"; "ppc64" ] build_types agents envs
                           (mkArgs None "build" false)
  = Raise (KeyError "x86_64") /\
  Generator.main [ "aarch64"; "x86_64"; "ppc64" ] build_types agents envs
                 (mkArgs None "build" false)
  = Raise (KeyError "x86_64").
Proof.
  apply (LoopFacts.missing_architecture_key_error
           [ "aarch64"; "x86_64"; "ppc64" ] build_types agents envs
           (mkArgs None "build" false) [ "aarch64" ] [ "ppc64" ] "x86_64").
  - reflexivity.
  - intros a [<- | []]. split; reflexivity.
  - reflexivity.
  - discriminate.
Defined.

Lemma empty_selection_prints_empty_pipeline_witness :
  Generator.pipeline_steps archs [] [] [] (mkArgs None "build" false) = Ok [] /\
  Generator.main archs [] [] [] (mkArgs None "build" false)
  = Ok ("{" ++ nl ++ "  " ++ q ++ "steps" ++ q ++ ": []" ++ nl ++ "}" ++ nl).
Proof.
  apply (LoopFacts.empty_selection_prints_empty_pipeline
           archs [] [] [] (mkArgs None "build" false)).
  right. reflexivity.
Defined.

(* ================================================================== *)
(** ** Further properties of the emitted commands and documents *)

Module ShellFacts.

Lemma prefix_append (p s : string) : String.prefix p (p ++ s) = true.
Proof.
  induction p as [| c p IH]; simpl.
  - now destruct s.
  - destruct (ascii_dec c c); [exact IH | congruence].
Qed.

Lemma length_append (p s : string) :
  String.length (p ++ s) = String.length p + String.length s.
Proof. induction p as [| c p IH]; simpl; auto. Qed.

Lemma substring_all (s : string) : substring 0 (String.length s) s = s.
Proof. induction s as [| c s IH]; simpl; [reflexivity | now rewrite IH]. Qed.

Lemma substring_skip (p s : string) (m : nat) :
  substring (String.length p) m (p ++ s) = substring 0 m s.
Proof. induction p as [| c p IH]; simpl; auto. Qed.

Lemma strip_prefix_append (p s : string) :
  Shell.strip_prefix p (p ++ s) = Some s.
Proof.
  unfold Shell.strip_prefix. rewrite prefix_append, length_append.
  replace (String.length p + String.length s - String.length p)
    with (String.length s) by lia.
  now rewrite substring_skip, substring_all.
Qed.

Lemma contains_char_append (c : ascii) (a b : string) :
  contains_char c (a ++ String c b) = true.
Proof.
  induction a as [| d a IH]; simpl.
  - now rewrite Ascii.eqb_refl.
  - rewrite IH. apply orb_true_r.
Qed.

Lemma split_first_append (c : ascii) (a b : string) :
  contains_char c a = false ->
  split_first c (a ++ String c b) = (a, b).
Proof.
  induction a as [| d a IH]; simpl.
  - intros _. now rewrite Ascii.eqb_refl.
  - intros H. apply orb_false_iff in H. destruct H as [Hd Ha].
    now rewrite Hd, (IH Ha).
Qed.

Lemma quoted_append (a r : string) :
  contains_char dquote a = false ->
  Shell.literal a = true ->
  Shell.quoted (q ++ a ++ q ++ r) = Some (a, r).
Proof.
  intros Ha Hlit. unfold Shell.quoted. rewrite strip_prefix_append.
  change (q ++ r) with (String dquote r).
  now rewrite contains_char_append, (split_first_append _ _ _ Ha), Hlit.
Qed.

(** X6. The export runs for [debug] only.  For an action that the
    shell reads as a literal between the double quotes (no double quote,
    dollar sign, backquote or backslash in it), the test in the first
    command succeeds exactly when the action is [debug]. *)
Theorem export_runs_iff_debug (act : string) :
  contains_char dquote act = false ->
  Shell.literal act = true ->
  Shell.conditional_export (Generator.debug_export act)
  = Some (String.eqb act "debug").
Proof.
  intros Hact Hlit. unfold Shell.conditional_export, Generator.debug_export.
  rewrite strip_prefix_append, (quoted_append _ _ Hact Hlit).
  reflexivity.
Qed.

End ShellFacts.

(** Outside the literals the model gives no verdict: what the shell
    substitutes decides. *)
Example substituted_action_is_left_open :
  Shell.conditional_export (Generator.debug_export "$(echo debug)") = None.
Proof. reflexivity. Qed.

Lemma export_runs_iff_debug_witness :
  contains_char dquote "build" = false /\
  Shell.literal "build" = true /\
  Shell.conditional_export (Generator.debug_export "build") = Some false.
Proof.
  split; [reflexivity |]. split; [reflexivity |].
  exact (ShellFacts.export_runs_iff_debug "build" eq_refl eq_refl).
Defined.



(* ================================================================== *)
(** ** Further properties of the command line *)

Module CliMore.
Import Cli CliFacts.

Lemma parse_optional_plain (s : string) :
  plain_word s = true -> parse_optional s = Got A.
Proof.
  destruct s as [| c s]; [reflexivity |].
  unfold plain_word, parse_optional. now intros ->.
Qed.

Lemma plain_word_not_dashdash (s : string) :
  plain_word s = true -> String.eqb s "--" = false.
Proof.
  destruct s as [| c s]; [reflexivity |]. unfold plain_word.
  intros H. apply negb_true_iff in H. simpl.
  now rewrite H.
Qed.

Lemma choice_is_plain (o : opt) (v : string) :
  takes_value o = true -> check_value o v = true -> plain_word v = true.
Proof.
  destruct o; try discriminate; intros _; unfold check_value, choices, mem;
    cbn [existsb actions build_types]; intros H;
    repeat match type of H with
           | (String.eqb v ?x || _)%bool = true =>
               destruct (String.eqb_spec v x); [subst; reflexivity |];
               cbn [orb] in H
           end; discriminate.
Qed.

(** How each string was classified. *)
Lemma classify_tokens (argv : list string) :
  forall toks,
    classify argv = Got toks ->
    Forall (fun t => snd t = A \/ snd t = DashDash \/
                     (In (fst t) argv /\ parse_optional (fst t) = Got (snd t)))
           toks.
Proof.
  induction argv as [| s argv IH]; intros toks H; simpl in H.
  - injection H as <-. constructor.
  - destruct (String.eqb s "--").
    + injection H as <-. constructor; [simpl; auto |].
      apply Forall_forall. intros t Ht. apply in_map_iff in Ht.
      destruct Ht as (x & <- & _). simpl. auto.
    + destruct (parse_optional s) as [cls | e] eqn:Hp; [| discriminate].
      destruct (classify argv) as [l | e]; [| discriminate].
      injection H as <-. constructor; [simpl; auto |].
      eapply Forall_impl; [| exact (IH l eq_refl)].
      simpl. intros t [Ht | [Ht | [Hin Ht]]]; auto.
Qed.

Lemma no_help_calm (argv : list string) (toks : list (string * arg_class)) :
  Forall (fun s => asks_help s = false) argv ->
  classify argv = Got toks ->
  Forall (fun t => calm (snd t) = true) toks.
Proof.
  intros Hhelp Hcl. eapply Forall_impl; [| exact (classify_tokens _ _ Hcl)].
  intros [s cls]. simpl. intros [-> | [-> | [Hin Hp]]]; try reflexivity.
  apply (parse_optional_calm s cls Hp).
  rewrite Forall_forall in Hhelp. now apply Hhelp.
Qed.

Lemma classify_dashdash (argv : list string) :
  forall toks,
    classify argv = Got toks -> In "--" argv ->
    exists s, In (s, DashDash) toks.
Proof.
  induction argv as [| s argv IH]; intros toks H Hin; [contradiction |].
  simpl in H. destruct (String.eqb_spec s "--") as [-> | Hs].
  - injection H as <-. exists "--". now left.
  - destruct (parse_optional s) as [cls | e]; [| discriminate].
    destruct (classify argv) as [l | e]; [| discriminate].
    injection H as <-. destruct Hin as [Heq | Hin]; [congruence |].
    destruct (IH l eq_refl Hin) as [x Hx]. exists x. now right.
Qed.

(** Before any [--], a command line is classified string by string. *)
Lemma classify_app_eq (pre suf : list string) :
  ~ In "--" pre ->
  classify (pre ++ suf) =
  match classify pre with
  | Error e => Error e
  | Got cpre =>
      match classify suf with
      | Error e => Error e
      | Got csuf => Got (cpre ++ csuf)%list
      end
  end.
Proof.
  induction pre as [| s pre IH]; intros Hno.
  - simpl. now destruct (classify suf).
  - cbn [app classify].
    destruct (String.eqb_spec s "--") as [-> | Hs]; [exfalso; apply Hno; now left |].
    destruct (parse_optional s) as [cls | e]; [| reflexivity].
    rewrite IH by (intros H; apply Hno; now right).
    destruct (classify pre) as [cpre | e]; [| reflexivity].
    now destruct (classify suf).
Qed.

(** A parse that returned a namespace had consumed every string; what
    follows on the command line is parsed from that namespace. *)
Lemma consume_app (toks : list (string * arg_class)) :
  forall ns extras a more,
    consume toks ns extras = Parsed a ->
    consume (toks ++ more) ns extras = consume more a [].
Proof.
  induction toks as [| [s cls] rest IH1 IH2] using toks_ind2;
    intros ns extras a more H.
  - simpl in H. destruct extras; [| discriminate]. now injection H as <-.
  - assert (Hextra : forall x ns',
               consume rest ns' (extras ++ [ x ])%list <> Parsed a).
    { intros x ns' Hx.
      pose proof (extras_refused rest ns' (extras ++ [ x ])%list) as Hr.
      rewrite Hx in Hr. apply Hr.
      intros Hnil. apply app_eq_nil in Hnil. destruct Hnil; discriminate. }
    rewrite <- app_comm_cons.
    destruct cls as [| | [act |] o [e |]]; cbn [consume] in *;
      try (exfalso; exact (Hextra _ _ H)).
    + destruct (takes_value act).
      * destruct (take_value act e ns); try discriminate. now apply IH1.
      * destruct (negb (second_is_dash o) && negb (String.eqb e EmptyString));
          [| discriminate].
        destruct (cluster act e) as [os | err]; [| discriminate].
        destruct (take_flags os ns); try discriminate. now apply IH1.
    + destruct (takes_value act).
      * destruct rest as [| [v [| | act' o' e']] rest']; try discriminate.
        cbn [app].
        destruct (take_value act v ns); try discriminate.
        eapply IH2; eauto.
      * destruct (take_flag act ns); try discriminate. now apply IH1.
Qed.

(** An accepted command line holds no [--]. *)
Lemma parsed_no_dashdash (argv : list string) (a : Args) :
  parse_args argv = Parsed a -> ~ In "--" argv.
Proof.
  unfold parse_args. destruct (classify argv) as [toks | e] eqn:Hcl;
    [| discriminate].
  intros H Hin. destruct (classify_dashdash _ _ Hcl Hin) as [s Hs].
  pose proof (dashdash_refused toks defaults [] s Hs) as Hr.
  now rewrite H in Hr.
Qed.

Lemma parse_args_app (argv more : list string) (a : Args) :
  parse_args argv = Parsed a ->
  parse_args (argv ++ more) =
  match classify more with
  | Error e => Failed e
  | Got toks => consume toks a []
  end.
Proof.
  intros H. pose proof (parsed_no_dashdash _ _ H) as Hno.
  unfold parse_args in *. rewrite (classify_app_eq _ _ Hno).
  destruct (classify argv) as [toks | e]; [| discriminate].
  destruct (classify more) as [cmore | e]; [| reflexivity].
  now apply consume_app.
Qed.

(** X9. Options are read from left to right and a later one overrides.
    An accepted command line followed by one more option with a valid value
    is accepted, and its namespace is the earlier one with that field
    replaced. *)
Theorem later_option_overrides (argv : list string) (a : Args) :
  parse_args argv = Parsed a ->
  (forall v, mem v actions = true ->
             parse_args (argv ++ [ "--action"; v ])
             = Parsed (mkArgs (build_type a) v (build_aarch64 a))) /\
  (forall v, mem v build_types = true ->
             parse_args (argv ++ [ "--build-type"; v ])
             = Parsed (mkArgs (Some v) (action a) (build_aarch64 a))) /\
  parse_args (argv ++ [ "--build-aarch64" ])
  = Parsed (mkArgs (build_type a) (action a) true).
Proof.
  intros H. split; [| split].
  - intros v Hv. rewrite (parse_args_app _ _ _ H).
    pose proof (choice_is_plain OptAction v eq_refl Hv) as Hplain.
    rewrite (classify_option "--action" [ v ]
               (O (Some OptAction) "--action" None)) by reflexivity.
    rewrite (classify_option v [] A)
      by (auto using plain_word_not_dashdash, parse_optional_plain).
    cbn [classify consume takes_value].
    now rewrite (take_value_stored OptAction v a
                   (plain_word_not_dashdash _ Hplain) Hv).
  - intros v Hv. rewrite (parse_args_app _ _ _ H).
    pose proof (choice_is_plain OptBuildType v eq_refl Hv) as Hplain.
    rewrite (classify_option "--build-type" [ v ]
               (O (Some OptBuildType) "--build-type" None)) by reflexivity.
    rewrite (classify_option v [] A)
      by (auto using plain_word_not_dashdash, parse_optional_plain).
    cbn [classify consume takes_value].
    now rewrite (take_value_stored OptBuildType v a
                   (plain_word_not_dashdash _ Hplain) Hv).
  - rewrite (parse_args_app _ _ _ H). reflexivity.
Qed.



(** A word no option can take ends the parse without a namespace. *)
Lemma word_refused (s : string) (cpost : list (string * arg_class)) :
  String.eqb s "--" = false ->
  (forall o, takes_value o = true -> check_value o s = false) ->
  forall cpre ns extras,
    refused (cpre ++ (s, A) :: cpost)
            (consume (cpre ++ (s, A) :: cpost)%list ns extras).
Proof.
  intros Hs Hbad cpre.
  induction cpre as [| [s0 cls] rest IH1 IH2] using toks_ind2;
    intros ns extras.
  - cbn [app consume]. apply refused_cons. apply extras_refused.
    intros H. apply app_eq_nil in H. destruct H; discriminate.
  - rewrite <- app_comm_cons.
    destruct cls as [| | [act |] o' [e |]]; cbn [consume];
      try (apply refused_cons; apply IH1).
    + destruct (takes_value act) eqn:Hv.
      * destruct (take_value_cases act e ns) as [[? ->] | [? ->]]; [| exact I].
        apply refused_cons. apply IH1.
      * destruct (negb (second_is_dash o') && negb (String.eqb e EmptyString))
          eqn:Hc; [| exact I].
        destruct (cluster act e) as [os | err]; [| exact I].
        help_or_go_on Hc act os ns ltac:(apply IH1).
    + destruct (takes_value act) eqn:Hv.
      * destruct rest as [| [u [| | act' o'' e']] rest']; cbn [app];
          try exact I.
        -- now rewrite (take_value_failed act s ns Hs (Hbad act Hv)).
        -- destruct (take_value_cases act u ns) as [[? ->] | [? ->]]; [| exact I].
           apply refused_cons2. eapply IH2; reflexivity.
      * destruct act; try discriminate; simpl.
        -- reflexivity.
        -- apply refused_cons. apply IH1.
Qed.

(** X10. A stray word is rejected.  The parser declares no positional
    argument: a string that is not an option and not a valid value makes
    the parse end without a namespace wherever it stands, so nothing is
    printed; when no string asks for help the run is a usage error. *)
Theorem stray_word_rejected (pre post : list string) (s : string) :
  plain_word s = true ->
  mem s actions = false ->
  mem s build_types = false ->
  (forall out, script (pre ++ s :: post) <> Printed out) /\
  (Forall (fun t => asks_help t = false) (pre ++ post) ->
   exists e, script (pre ++ s :: post) = UsageError e).
Proof.
  intros Hplain Hact Hbt.
  assert (Hbad : forall o, takes_value o = true -> check_value o s = false).
  { intros [| | |]; try discriminate; intros _; assumption. }
  assert (Href : forall toks,
             classify (pre ++ s :: post) = Got toks ->
             refused toks (consume toks defaults [])).
  { intros toks Hcl.
    destruct (classify_app _ _ _ Hcl) as (cpre & csuf & -> & _ & Hsuf).
    destruct Hsuf as [Hsuf | [[x Hx] _]].
    - rewrite (classify_option s post A) in Hsuf
        by (auto using plain_word_not_dashdash, parse_optional_plain).
      destruct (classify post) as [cpost | e]; [| discriminate].
      injection Hsuf as <-.
      apply word_refused; auto using plain_word_not_dashdash.
    - apply dashdash_refused with (s := x). apply in_or_app. now left. }
  unfold script, parse_args.
  destruct (classify (pre ++ s :: post)) as [toks | e] eqn:Hcl.
  2:{ split; [discriminate | eauto]. }
  specialize (Href toks eq_refl). split.
  - intros out. destruct (consume toks defaults []); try discriminate.
    contradiction.
  - intros Hhelp.
    destruct (refused_failed toks (consume toks defaults [])) as [e ->];
      [| exact Href | eauto].
    apply (no_help_calm (pre ++ s :: post)); [| exact Hcl].
    apply Forall_app in Hhelp. destruct Hhelp as [Hpre Hpost].
    apply Forall_app. split; [exact Hpre |]. constructor; [| exact Hpost].
    unfold asks_help. now rewrite (parse_optional_plain s Hplain).
Qed.

(** The prefixes of a text, one character at a time. *)
Lemma prefix_inv (s : string) (c : ascii) (t : string) :
  String.prefix s (String c t) = true ->
  s = EmptyString \/ exists s', s = String c s' /\ String.prefix s' t = true.
Proof.
  destruct s as [| d s]; [now left |]. simpl.
  destruct (ascii_dec d c) as [-> | _]; [| discriminate].
  intros H. right. eauto.
Qed.

Lemma prefix_nil_inv (s : string) :
  String.prefix s EmptyString = true -> s = EmptyString.
Proof. destruct s; [reflexivity | discriminate]. Qed.

(** Enumerate the strings of which a hypothesis says that they are a
    prefix of a given text. *)
Ltac prefix_cases H :=
  repeat (first
    [ apply prefix_nil_inv in H; subst
    | apply prefix_inv in H;
      destruct H as [-> | (? & -> & H)] ]).

(** A string read as the option [name] is parsed as [name] itself. *)
Lemma parse_args_same_option (s name : string) (o : opt) (argv : list string) :
  String.eqb s "--" = false ->
  parse_optional s = Got (O (Some o) name None) ->
  String.eqb name "--" = false ->
  parse_optional name = Got (O (Some o) name None) ->
  parse_args (s :: argv) = parse_args (name :: argv).
Proof.
  intros Hs Hp Hn Hpn. unfold parse_args.
  rewrite (classify_option _ _ _ Hs Hp), (classify_option _ _ _ Hn Hpn).
  destruct (classify argv); reflexivity.
Qed.

(** X11. Abbreviations.  A long option may be cut short as long as it
    still names one option only: [--a] to [--action] stand for [--action],
    [--build-t...] for [--build-type] and [--build-a...] for
    [--build-aarch64]; the two names share [--build-], and anything from
    [--b] to [--build-] is rejected as ambiguous. *)
Theorem abbreviations_resolve (s : string) (argv : list string) :
  (String.prefix s "--action" = true -> 3 <= String.length s ->
   parse_args (s :: argv) = parse_args ("--action" :: argv)) /\
  (String.prefix "--build-t" s = true -> String.prefix s "--build-type" = true ->
   parse_args (s :: argv) = parse_args ("--build-type" :: argv)) /\
  (String.prefix "--build-a" s = true -> String.prefix s "--build-aarch64" = true ->
   parse_args (s :: argv) = parse_args ("--build-aarch64" :: argv)) /\
  (String.prefix s "--build-" = true -> 3 <= String.length s ->
   parse_args (s :: argv)
   = Failed (ambiguous_option s [ "--build-type"; "--build-aarch64" ])).
Proof.
  split; [| split; [| split]].
  - intros H Hlen. prefix_cases H; simpl in Hlen; try lia;
      apply (parse_args_same_option _ "--action" OptAction); reflexivity.
  - intros H0 H. prefix_cases H; try discriminate;
      apply (parse_args_same_option _ "--build-type" OptBuildType); reflexivity.
  - intros H0 H. prefix_cases H; try discriminate;
      apply (parse_args_same_option _ "--build-aarch64" OptBuildAarch64);
      reflexivity.
  - intros H Hlen. prefix_cases H; simpl in Hlen; try lia; reflexivity.
Qed.

(** The two spellings of an option and its value are consumed alike. *)
Lemma consume_equals_form (o : opt) (name v x : string)
      (cpost : list (string * arg_class)) :
  takes_value o = true ->
  forall cpre ns extras,
    consume (cpre ++ (x, O (Some o) name (Some v)) :: cpost)%list ns extras =
    consume (cpre ++ (name, O (Some o) name None) :: (v, A) :: cpost)%list
            ns extras.
Proof.
  intros Ho cpre.
  induction cpre as [| [s cls] rest IH1 IH2] using toks_ind2;
    intros ns extras.
  - cbn [app consume]. now rewrite Ho.
  - rewrite <- !app_comm_cons.
    destruct cls as [| | [act |] o' [e |]]; cbn [consume]; try apply IH1.
    + destruct (takes_value act).
      * destruct (take_value act e ns); auto.
      * destruct (negb (second_is_dash o') && negb (String.eqb e EmptyString));
          [| reflexivity].
        destruct (cluster act e) as [os | err]; [| reflexivity].
        destruct (take_flags os ns); auto.
    + destruct (takes_value act).
      * destruct rest as [| [u [| | act' o'' e']] rest']; cbn [app];
          try reflexivity.
        destruct (take_value act u ns); try reflexivity.
        eapply IH2; reflexivity.
      * destruct (take_flag act ns); auto.
Qed.

(** X12. [--option=value] is [--option value].  Before any [--], an
    option glued to a valid value with an equals sign is parsed exactly as
    the option followed by the value as a string of its own, whatever
    surrounds them. *)
Theorem equals_form_equivalent (pre post : list string) (name v : string) :
  (name = "--action" /\ mem v actions = true) \/
  (name = "--build-type" /\ mem v build_types = true) ->
  ~ In "--" pre ->
  parse_args (pre ++ (name ++ "=" ++ v) :: post)
  = parse_args (pre ++ name :: v :: post).
Proof.
  intros Hname Hno.
  assert (H : exists o,
             takes_value o = true /\
             String.eqb (name ++ "=" ++ v) "--" = false /\
             parse_optional (name ++ "=" ++ v) = Got (O (Some o) name (Some v)) /\
             String.eqb name "--" = false /\
             parse_optional name = Got (O (Some o) name None) /\
             String.eqb v "--" = false /\
             parse_optional v = Got A).
  { destruct Hname as [[-> Hv] | [-> Hv]].
    - exists OptAction. unfold mem, actions in Hv. cbn [existsb] in Hv.
      destruct (String.eqb_spec v "build") as [E | _];
        [subst v; repeat split |].
      destruct (String.eqb_spec v "debug") as [E | _];
        [subst v; repeat split |].
      discriminate.
    - exists OptBuildType. unfold mem, build_types in Hv. cbn [existsb] in Hv.
      destruct (String.eqb_spec v "RelWithDebInfo") as [E | _];
        [subst v; repeat split |].
      discriminate. }
  destruct H as (o & Ho & Hx & Hpx & Hn & Hpn & Hv & Hpv).
  unfold parse_args. rewrite !(classify_app_eq _ _ Hno).
  destruct (classify pre) as [cpre | e]; [| reflexivity].
  rewrite (classify_option _ _ _ Hx Hpx), (classify_option _ _ _ Hn Hpn),
    (classify_option _ _ _ Hv Hpv).
  destruct (classify post) as [cpost | e]; [| reflexivity].
  now apply consume_equals_form.
Qed.

End CliMore.

Lemma later_option_overrides_witness :
  Cli.parse_args [ "--action"; "debug"; "--build-aarch64" ]
  = Cli.Parsed (mkArgs None "debug" true) /\
  Cli.parse_args ([ "--action"; "debug"; "--build-aarch64" ] ++ [ "--action"; "build" ])
  = Cli.Parsed (mkArgs None "build" true).
Proof.
  split; [reflexivity |].
  exact (proj1 (CliMore.later_option_overrides
                  [ "--action"; "debug"; "--build-aarch64" ]
                  (mkArgs None "debug" true) eq_refl)
               "build" eq_refl).
Defined.

Lemma stray_word_rejected_witness :
  exists e,
    script ([ "--action"; "debug" ] ++ "macos" :: [ "--build-aarch64" ])
    = UsageError e.
Proof.
  apply (CliMore.stray_word_rejected
           [ "--action"; "debug" ] [ "--build-aarch64" ] "macos");
    try reflexivity.
  repeat constructor.
Defined.

Lemma equals_form_equivalent_witness :
  Cli.parse_args ([ "--build-aarch64" ] ++ ("--action" ++ "=" ++ "debug")
                    :: [ "--build-type"; "RelWithDebInfo" ])
  = Cli.parse_args ([ "--build-aarch64" ] ++ "--action" :: "debug"
                      :: [ "--build-type"; "RelWithDebInfo" ]) /\
  Cli.parse_args ([ "--build-aarch64" ] ++ ("--action" ++ "=" ++ "debug")
                    :: [ "--build-type"; "RelWithDebInfo" ])
  = Cli.Parsed (mkArgs (Some "RelWithDebInfo") "debug" true).
Proof.
  split; [| reflexivity].
  apply (CliMore.equals_form_equivalent
           [ "--build-aarch64" ] [ "--build-type"; "RelWithDebInfo" ]
           "--action" "debug").
  - left. split; reflexivity.
  - simpl. intuition discriminate.
Defined.

(* ================================================================== *)
(** ** When the loop ends normally *)

Module CoverFacts.

(** The first entry of a list that fails a test, with the entries before
    it, which pass. *)
Lemma first_failing {X : Type} (f : X -> bool) (l : list X) :
  forallb f l = false ->
  exists pre x post,
    l = (pre ++ x :: post)%list /\ forallb f pre = true /\ f x = false.
Proof.
  induction l as [| y l IH]; simpl; [discriminate |].
  destruct (f y) eqn:Hy; simpl.
  - intros H. destruct (IH H) as (pre & x & post & -> & Hpre & Hx).
    exists (y :: pre), x, post. simpl. rewrite Hy. auto.
  - intros _. exists [], y, l. auto.
Qed.

(** X13. When the loop ends normally.  With a build type to build, the
    loop of [main] ends normally exactly when every architecture of
    [archs] is a key of both tables. *)
Theorem loop_ends_normally_iff_covered
        (archs build_types : list string) (agents envs : dict Json.value)
        (args : Args) :
  Generator.cur_build_types build_types args <> [] ->
  ((exists steps,
      Generator.pipeline_steps archs build_types agents envs args = Ok steps)
   <-> forallb (covered agents envs) archs = true).
Proof.
  intros Hne. split.
  - intros [steps Hrun].
    destruct (forallb (covered agents envs) archs) eqn:Hall; [reflexivity |].
    destruct (first_failing _ _ Hall) as (pre & a & post & Heq & Hpre & Ha).
    rewrite forallb_forall in Hpre.
    subst archs.
    rewrite (LoopFacts.first_missing_raises build_types agents envs args
               pre post a) in Hrun; auto; [discriminate |].
    intros x Hx. specialize (Hpre x Hx). unfold covered in Hpre.
    now apply andb_prop in Hpre.
  - intros Hall. rewrite forallb_forall in Hall.
    destruct (GeneratorFacts.pipeline_steps_ok archs build_types agents envs args)
      as (steps & Hrun & _); [| eauto].
    intros a Ha. specialize (Hall a Ha). unfold covered in Hall.
    now apply andb_prop in Hall.
Qed.

End CoverFacts.

(* ================================================================== *)
(** ** The characters of the printed text *)

Module TextFacts.

Lemma printable_append (a b : string) :
  printable (a ++ b) = printable a && printable b.
Proof.
  induction a as [| c a IH]; simpl; [reflexivity |].
  now rewrite IH, andb_assoc.
Qed.

Lemma printable_repeat (s : string) (n : nat) :
  printable s = true -> printable (repeat_string s n) = true.
Proof.
  intros Hs. induction n as [| n IH]; simpl; [reflexivity |].
  now rewrite printable_append, Hs, IH.
Qed.

Lemma printable_join (sep : string) (l : list string) :
  printable sep = true ->
  Forall (fun x => printable x = true) l ->
  printable (join sep l) = true.
Proof.
  intros Hsep. induction 1 as [| x l Hx Hl IH]; [reflexivity |].
  destruct l as [| y l]; [exact Hx |].
  change (join sep (x :: y :: l)) with (x ++ sep ++ join sep (y :: l)).
  now rewrite !printable_append, Hx, Hsep, IH.
Qed.

Lemma escape_char_printable (c : ascii) :
  printable (Json.escape_char c) = true.
Proof. destruct c as [[] [] [] [] [] [] [] []]; reflexivity. Qed.

Lemma encode_basestring_printable (s : string) :
  printable (Json.encode_basestring_ascii s) = true.
Proof.
  unfold Json.encode_basestring_ascii. rewrite !printable_append.
  assert (H : printable (Json.escape s) = true).
  { induction s as [| c s IH]; simpl; [reflexivity |].
    now rewrite printable_append, escape_char_printable, IH. }
  now rewrite H.
Qed.

Lemma intstr_printable (z : Z) : printable (Json.intstr z) = true.
Proof.
  unfold Json.intstr.
  assert (H : forall d, printable (NilEmpty.string_of_uint d) = true).
  { induction d; simpl; auto. }
  assert (H0 : forall d, printable (NilZero.string_of_uint d) = true).
  { intros d. destruct d; try apply H. reflexivity. }
  destruct (Z.to_int z) as [d | d]; simpl; auto.
Qed.

(** Induction on a value through its items and members. *)
Lemma value_induction (P : Json.value -> Prop) :
  P Json.Null ->
  (forall b, P (Json.Bool b)) ->
  (forall z, P (Json.Int z)) ->
  (forall s, P (Json.Str s)) ->
  (forall items, Forall P items -> P (Json.Arr items)) ->
  (forall members, Forall (fun kv => P (snd kv)) members -> P (Json.Obj members)) ->
  forall v, P v.
Proof.
  intros HNull HBool HInt HStr HArr HObj.
  fix IH 1. intros [| b | z | s | items | members].
  - exact HNull.
  - apply HBool.
  - apply HInt.
  - apply HStr.
  - apply HArr. induction items as [| x items IHl]; constructor;
      [apply IH | exact IHl].
  - apply HObj. induction members as [| [k x] members IHl]; constructor;
      [apply IH | exact IHl].
Qed.

Lemma iterencode_printable (indent : string) :
  printable indent = true ->
  forall v level, printable (Json.iterencode indent level v) = true.
Proof.
  intros Hind.
  assert (Hnl : forall level, printable (Json.newline_indent indent level) = true).
  { intros level. unfold Json.newline_indent.
    now rewrite printable_append, printable_repeat. }
  induction v as [| [] | z | s | items IH | members IH] using value_induction;
    intros level; try reflexivity.
  - apply intstr_printable.
  - apply encode_basestring_printable.
  - destruct items as [| x items]; [reflexivity |].
    cbn [Json.iterencode]. rewrite !printable_append, !Hnl.
    rewrite printable_join; [reflexivity | |].
    + now rewrite printable_append, Hnl.
    + apply Forall_forall. intros t Ht. apply in_map_iff in Ht.
      destruct Ht as (y & <- & Hy). rewrite Forall_forall in IH. now apply IH.
  - destruct members as [| m members]; [reflexivity |].
    cbn [Json.iterencode]. rewrite !printable_append, !Hnl.
    rewrite printable_join; [reflexivity | |].
    + now rewrite printable_append, Hnl.
    + apply Forall_forall. intros t Ht. apply in_map_iff in Ht.
      destruct Ht as ([k y] & <- & Hy). rewrite Forall_forall in IH.
      rewrite !printable_append, encode_basestring_printable.
      now rewrite (IH (k, y) Hy).
Qed.

(** X14. The printed text is plain ASCII.  Whatever strings the values
    hold, [json.dumps] with an indent writes printable ASCII characters and
    new lines only; so does [main], whatever the tables and the arguments,
    and so does every run of the script that prints. *)
Theorem printed_text_is_ascii :
  (forall n v, printable (Json.dumps n v) = true) /\
  (forall archs build_types agents envs args out,
     Generator.main archs build_types agents envs args = Ok out ->
     printable out = true) /\
  (forall argv out, script argv = Printed out -> printable out = true).
Proof.
  assert (Hd : forall n v, printable (Json.dumps n v) = true).
  { intros n v. unfold Json.dumps. apply iterencode_printable.
    now apply printable_repeat. }
  assert (Hm : forall archs build_types agents envs args out,
             Generator.main archs build_types agents envs args = Ok out ->
             printable out = true).
  { intros archs0 bts agents0 envs0 args out. unfold Generator.main.
    destruct (Generator.pipeline_steps archs0 bts agents0 envs0 args)
      as [steps | e]; cbn [bind]; [| discriminate].
    intros H.
    assert (E : out = Json.dumps 2 (Generator.pipeline steps) ++ nl)
      by congruence.
    now rewrite E, printable_append, Hd. }
  split; [exact Hd |]. split; [exact Hm |].
  intros argv out H. apply printed_from_parsed_args in H.
  destruct H as (a & _ & _ & Hmain). exact (Hm _ _ _ _ _ _ Hmain).
Qed.

End TextFacts.

Lemma loop_ends_normally_iff_covered_witness :
  (exists steps, pipeline_steps (mkArgs None "build" false) = Ok steps)
  <-> forallb (covered agents envs) archs = true.
Proof.
  apply (CoverFacts.loop_ends_normally_iff_covered
           archs build_types agents envs (mkArgs None "build" false)).
  discriminate.
Defined.
